(** * Automat: the task scheduler of [automat.py]

    A shallow embedding of the classes [Task] and [Agent] and the proofs of
    their readiness, execution, sweep and polling-loop properties.

    Conventions of the embedding.
    - Python attributes keep their names; a method that mutates [self]
      returns the updated record next to its result.
    - The actions bound to tasks are opaque callables.  They act on an
      abstract [World] (everything outside the scheduler: files, lists
      captured by closures, the system clock) and end by returning or by
      raising.
    - [time.time()] yields a float; clock readings are modelled by exact
      rationals, so the comparison of [should_run] is exact.
    - Calls to [logging] are not modelled. *)

From Stdlib Require Import List ZArith QArith Bool String Lia DecimalString.
Import ListNotations.

Local Open Scope string_scope.
Local Open Scope Z_scope.

(** ** Exceptions and the effect of a call into the host *)

(** What a Python call can raise, split the way [except Exception] and
    [except KeyboardInterrupt] split it.  [Exception msg] is any instance [e]
    of a subclass of [Exception], with [str(e) = msg].  [KeyboardInterrupt]
    and [SystemExit] derive from [BaseException] only. *)
Inductive Raised : Type :=
| Exception (msg : string)
| KeyboardInterrupt
| SystemExit.

Inductive Signal : Type :=
| Returned
| Raises (e : Raised).

(** The effect of one call of host code (a task action, or [time.sleep]):
    the world it leaves, how it ended, and whether [Agent.stop] was called
    on the agent meanwhile (by the action itself through a captured
    reference, or by a signal handler or another thread). *)
Record Effect (W : Type) : Type := mkEffect {
  world_after : W;
  signal : Signal;
  called_stop : bool
}.
Arguments mkEffect {W} _ _ _.
Arguments world_after {W} _.
Arguments signal {W} _.
Arguments called_stop {W} _.

(** The host environment the module imports: the clock of [time.time()],
    [time.sleep], and the formatting [datetime.fromtimestamp(t).isoformat()]
    ([datetime.now().isoformat()] is that formatting of the current clock
    reading). *)
Class Host : Type := {
  World : Type;
  time_time : World -> Q;
  time_sleep : Z -> World -> Effect World;
  isoformat : Q -> string
}.

(** How a method call ends for its caller. *)
Inductive Completion (A : Type) : Type :=
| Returns (a : A)
| Propagates (e : Raised).
Arguments Returns {A} _.
Arguments Propagates {A} _.

(** Ghost journal of the calls the scheduler makes into the host. *)
Inductive Event : Type :=
| Invoked (task : string)
| SweepBegun
| Slept.

Section Model.
Context {H : Host}.

(** The store shared by the scheduler and the host.  The [running]
    attribute of the agent lives here, because [stop()] reaches it while
    [run] is on the stack. *)
Record Env : Type := mkEnv {
  world : World;
  running : bool;
  journal : list Event
}.

(** ** class Task *)

Record Task : Type := mkTask {
  name : string;
  action : World -> Effect World;
  interval : Z;
  enabled : bool;
  last_run : option Q;
  run_count : Z;
  status : string
}.

(** [Task.__init__] *)
Definition new_task (n : string) (act : World -> Effect World)
    (i : Z) (e : bool) : Task :=
  {| name := n; action := act; interval := i; enabled := e;
     last_run := None; run_count := 0; status := "pending" |}.

Definition set_status (s : string) (t : Task) : Task :=
  {| name := name t; action := action t; interval := interval t;
     enabled := enabled t; last_run := last_run t;
     run_count := run_count t; status := s |}.

Definition set_last_run (l : option Q) (t : Task) : Task :=
  {| name := name t; action := action t; interval := interval t;
     enabled := enabled t; last_run := l;
     run_count := run_count t; status := status t |}.

Definition set_run_count (c : Z) (t : Task) : Task :=
  {| name := name t; action := action t; interval := interval t;
     enabled := enabled t; last_run := last_run t;
     run_count := c; status := status t |}.

Definition set_enabled (e : bool) (t : Task) : Task :=
  {| name := name t; action := action t; interval := interval t;
     enabled := e; last_run := last_run t;
     run_count := run_count t; status := status t |}.

(** [Task.should_run], at the clock reading of world [w]. *)
Definition should_run (t : Task) (w : World) : bool :=
  if negb (enabled t) then false
  else match last_run t with
       | None => true
       | Some lr =>
           if interval t =? 0 then false
           else Qle_bool (inject_Z (interval t)) (time_time w - lr)
       end.

(** The dictionary built by [Task.execute]. *)
Record Result : Type := mkResult {
  r_task : string;
  r_timestamp : string;
  r_status : string;
  r_message : option string;
  r_error : option string
}.

(** [str(n)] for a Python int. *)
Definition str (n : Z) : string := NilZero.string_of_int (Z.to_int n).

(** The store after a call into the host: the world it left, [stop()]
    applied if it was called, the call journalled. *)
Definition after_call (ev : Event) (eff : Effect World) (env : Env) : Env :=
  {| world := world_after eff;
     running := if called_stop eff then false else running env;
     journal := journal env ++ [ev] |}.

(** [Task.execute].  The [try] block sets the status, calls the action and,
    if the action returned, does the bookkeeping; [except Exception] turns a
    failure into a result; any other exception leaves the method. *)
Definition execute (t : Task) (env : Env) : Task * Env * Completion Result :=
  let result :=
    {| r_task := name t;
       r_timestamp := isoformat (time_time (world env));
       r_status := "success"; r_message := None; r_error := None |} in
  let t := set_status "running" t in
  let eff := action t (world env) in
  let env := after_call (Invoked (name t)) eff env in
  match signal eff with
  | Returned =>
      let t := set_last_run (Some (time_time (world env))) t in
      let t := set_run_count (run_count t + 1) t in
      let t := set_status "completed" t in
      (t, env,
       Returns {| r_task := r_task result;
                  r_timestamp := r_timestamp result;
                  r_status := r_status result;
                  r_message := Some ("Task completed successfully (run #"
                                     ++ str (run_count t) ++ ")");
                  r_error := r_error result |})
  | Raises (Exception msg) =>
      let t := set_status "failed" t in
      (t, env,
       Returns {| r_task := r_task result;
                  r_timestamp := r_timestamp result;
                  r_status := "failed";
                  r_message := r_message result;
                  r_error := Some msg |})
  | Raises e => (t, env, Propagates e)
  end.

(** ** class Agent *)

(** The attributes of an agent that the scheduler reads and writes: its
    name and its registry ([running] is in the store; the configuration
    mapping and the logger are inert). *)
Record Agent : Type := mkAgent {
  agent_name : string;
  tasks : list Task
}.

Definition set_tasks (ts : list Task) (a : Agent) : Agent :=
  {| agent_name := agent_name a; tasks := ts |}.

Definition set_running (b : bool) (env : Env) : Env :=
  {| world := world env; running := b; journal := journal env |}.

(** [Agent.__init__] leaves an empty registry and [running = False]. *)
Definition new_agent (n : string) : Agent :=
  {| agent_name := n; tasks := [] |}.

Definition new_env (w : World) : Env :=
  {| world := w; running := false; journal := [] |}.

(** [Agent.add_task]: appends and returns [self]. *)
Definition add_task (n : string) (act : World -> Effect World)
    (i : Z) (e : bool) (a : Agent) : Agent :=
  set_tasks (tasks a ++ [new_task n act i e]) a.

(** The index at which the loop [for i, task in enumerate(self.tasks)] of
    [remove_task] meets [task.name == name], if it does. *)
Fixpoint index_of_name (n : string) (ts : list Task) : option nat :=
  match ts with
  | [] => None
  | t :: rest =>
      if String.eqb (name t) n then Some 0%nat
      else option_map S (index_of_name n rest)
  end.

(** [list.pop(i)] for an index in range. *)
Definition pop (i : nat) (ts : list Task) : list Task :=
  firstn i ts ++ skipn (S i) ts.

(** [Agent.remove_task] *)
Definition remove_task (n : string) (a : Agent) : Agent * bool :=
  match index_of_name n (tasks a) with
  | Some i => (set_tasks (pop i (tasks a)) a, true)
  | None => (a, false)
  end.

(** One dictionary of [Agent.get_task_status]. *)
Record Snapshot : Type := mkSnapshot {
  s_name : string;
  s_status : string;
  s_enabled : bool;
  s_interval : Z;
  s_run_count : Z;
  s_last_run : option string
}.

(** The conditional [... if task.last_run else None] tests truthiness:
    [None] and the timestamp [0.0] both take the [else] branch. *)
Definition snapshot (t : Task) : Snapshot :=
  {| s_name := name t;
     s_status := status t;
     s_enabled := enabled t;
     s_interval := interval t;
     s_run_count := run_count t;
     s_last_run :=
       match last_run t with
       | Some lr => if Qeq_bool lr 0 then None else Some (isoformat lr)
       | None => None
       end |}.

(** [Agent.get_task_status]: the agent after the call and the list built. *)
Definition get_task_status (a : Agent) : Agent * list Snapshot :=
  (a, map snapshot (tasks a)).

(** The loop shared by [run_once] and [run]:
    [for task in self.tasks: if <gate>: task.execute()],
    collecting the results.  An exception leaving [execute] leaves the loop;
    the records executed so far keep their mutations. *)
Fixpoint for_each (gate : Task -> World -> bool) (ts : list Task) (env : Env)
    : list Task * Env * Completion (list Result) :=
  match ts with
  | [] => ([], env, Returns [])
  | t :: rest =>
      if gate t (world env) then
        match execute t env with
        | (t', env', Returns r) =>
            match for_each gate rest env' with
            | (rest', env'', Returns rs) => (t' :: rest', env'', Returns (r :: rs))
            | (rest', env'', Propagates e) => (t' :: rest', env'', Propagates e)
            end
        | (t', env', Propagates e) => (t' :: rest, env', Propagates e)
        end
      else
        match for_each gate rest env with
        | (rest', env', c) => (t :: rest', env', c)
        end
  end.

(** The gate of [run_once]: [task.enabled and task.last_run is None]. *)
Definition never_ran (t : Task) : bool :=
  enabled t && match last_run t with None => true | Some _ => false end.

(** [Agent.run_once] *)
Definition run_once (a : Agent) (env : Env)
    : Agent * Env * Completion (list Result) :=
  match for_each (fun t _ => never_ran t) (tasks a) env with
  | (ts, env', c) => (set_tasks ts a, env', c)
  end.

(** How the [while] loop of [run] is left. *)
Inductive LoopExit : Type :=
| ConditionFalse
| LimitReached
| Raised_ (e : Raised).

(** [max_iterations and iteration >= max_iterations]: [None] and [0] are
    falsy. *)
Definition limit_hit (max_iterations : option Z) (iteration : Z) : bool :=
  match max_iterations with
  | None => false
  | Some m => negb (m =? 0) && (m <=? iteration)
  end.

(** The [while self.running] loop of [run].  [fuel] bounds the number of
    times the loop condition is evaluated; [None] means the bound was
    reached with the loop still going. *)
Fixpoint run_loop (fuel : nat) (max_iterations : option Z) (iteration : Z)
    (ts : list Task) (env : Env) : option (list Task * Env * LoopExit) :=
  match fuel with
  | O => None
  | S fuel' =>
      if negb (running env) then Some (ts, env, ConditionFalse)
      else if limit_hit max_iterations iteration then
        Some (ts, env, LimitReached)
      else
        let env := {| world := world env; running := running env;
                      journal := journal env ++ [SweepBegun] |} in
        match for_each should_run ts env with
        | (ts', env', Propagates e) => Some (ts', env', Raised_ e)
        | (ts', env', Returns _) =>
            let eff := time_sleep 1 (world env') in
            let env'' := after_call Slept eff env' in
            match signal eff with
            | Raises e => Some (ts', env'', Raised_ e)
            | Returned =>
                run_loop fuel' max_iterations (iteration + 1) ts' env''
            end
        end
  end.

(** What the caller of [run] sees: [except KeyboardInterrupt] swallows the
    interrupt, any other exception goes on after the [finally] clause. *)
Definition run_completion (x : LoopExit) : Completion unit :=
  match x with
  | Raised_ KeyboardInterrupt => Returns tt
  | Raised_ e => Propagates e
  | _ => Returns tt
  end.

(** [Agent.run]: the agent and store it leaves and how the loop was left. *)
Definition run (fuel : nat) (max_iterations : option Z) (a : Agent) (env : Env)
    : option (Agent * Env * LoopExit) :=
  let env := set_running true env in
  match run_loop fuel max_iterations 0 (tasks a) env with
  | None => None
  | Some (ts, env', x) => Some (set_tasks ts a, set_running false env', x)
  end.

(** [Agent.stop] *)
Definition stop (env : Env) : Env := set_running false env.

(** ** Vocabulary of the statements *)

(** A history of [execute] calls on one record: the k-th call finds the
    store [nth k envs]; anything may have happened to the store between two
    calls. *)
Fixpoint executions (envs : list Env) (t : Task)
    : Task * list (Completion Result) :=
  match envs with
  | [] => (t, [])
  | env :: rest =>
      match execute t env with
      | (t', _, c) =>
          match executions rest t' with
          | (t'', cs) => (t'', c :: cs)
          end
      end
  end.

Definition succeeded (c : Completion Result) : bool :=
  match c with
  | Returns r => String.eqb (r_status r) "success"
  | Propagates _ => false
  end.

(** The action either returns or signals a failure (an [Exception]); it is
    never cut short by [KeyboardInterrupt] or [SystemExit]. *)
Definition returns_or_fails (act : World -> Effect World) : Prop :=
  forall w, signal (act w) = Returned \/
            exists msg, signal (act w) = Raises (Exception msg).

(** Nothing calls [stop()] while the action runs. *)
Definition never_stops (act : World -> Effect World) : Prop :=
  forall w, called_stop (act w) = false.

(** The statuses [execute] writes. *)
Definition executed_status (s : string) : Prop :=
  s = "running" \/ s = "completed" \/ s = "failed".

(** The action returns or fails and nothing stops the agent meanwhile. *)
Definition quiet (t : Task) : Prop :=
  returns_or_fails (action t) /\ never_stops (action t).

(** [time.sleep] is never interrupted and nothing stops the agent during
    it. *)
Definition quiet_sleep : Prop :=
  forall s w, signal (time_sleep s w) = Returned /\
              called_stop (time_sleep s w) = false.

(** The number of records of a registry that bear a name. *)
Definition count_name (n : string) (ts : list Task) : nat :=
  List.length (filter (fun t => String.eqb (name t) n) ts).

(** What a sweep may change in a record: nothing of its identity, and its
    run count only upwards. *)
Definition kept (t t' : Task) : Prop :=
  name t' = name t /\ action t' = action t /\
  interval t' = interval t /\ enabled t' = enabled t /\
  run_count t <= run_count t'.

Definition failed (r : Result) : bool := String.eqb (r_status r) "failed".

(** Whether the action of [t], called in world [w], returns. *)
Definition action_succeeds (t : Task) (w : World) : bool :=
  match signal (action t w) with
  | Returned => true
  | Raises _ => false
  end.

(** The worlds in which the sweep of [run_once], entered in world [w],
    reaches each record of the registry: a record that passes the gate has
    its action called there, and the sweep goes on in the world that call
    left.  [sweep_end] is the world after the last record. *)
Fixpoint sweep_worlds (ts : list Task) (w : World) : list World :=
  match ts with
  | [] => []
  | t :: rest =>
      w :: sweep_worlds rest
             (if never_ran t then world_after (action t w) else w)
  end.

Fixpoint sweep_end (ts : list Task) (w : World) : World :=
  match ts with
  | [] => w
  | t :: rest =>
      sweep_end rest (if never_ran t then world_after (action t w) else w)
  end.

(** What an execution in world [w] whose action returned or failed leaves
    in the record, and what it reports. *)
Definition executed_in (t : Task) (w : World) (t' : Task) : Prop :=
  status t' = (if action_succeeds t w then "completed" else "failed") /\
  run_count t' = run_count t + (if action_succeeds t w then 1 else 0) /\
  last_run t' = (if action_succeeds t w
                 then Some (time_time (world_after (action t w)))
                 else last_run t).

Definition reported_in (t : Task) (w : World) (r : Result) : Prop :=
  r_task r = name t /\
  r_status r = (if action_succeeds t w then "success" else "failed") /\
  r_error r = match signal (action t w) with
              | Raises (Exception msg) => Some msg
              | _ => None
              end.

(** The journal of [k] sweeps that execute nothing, each followed by its
    poll sleep. *)
Fixpoint idle_sweeps (k : nat) : list Event :=
  match k with
  | O => []
  | S k' => SweepBegun :: Slept :: idle_sweeps k'
  end.

Definition is_invoked (ev : Event) : bool :=
  match ev with Invoked _ => true | _ => false end.

Definition is_sweep (ev : Event) : bool :=
  match ev with SweepBegun => true | _ => false end.

Definition is_sleep (ev : Event) : bool :=
  match ev with Slept => true | _ => false end.

End Model.

(** ** Construction of an agent *)

(** A JSON document as [json.load] returns it. *)
#[warnings="-register-all"]
Inductive Json : Type :=
| JNull
| JBool (b : bool)
| JInt (n : Z)
| JFloat (q : Q)
| JString (s : string)
| JArray (items : list Json)
| JObject (fields : list (string * Json)).

(** [type(v).__name__] of the Python value of a document. *)
Definition type_name (v : Json) : string :=
  match v with
  | JNull => "NoneType"
  | JBool _ => "bool"
  | JInt _ => "int"
  | JFloat _ => "float"
  | JString _ => "str"
  | JArray _ => "list"
  | JObject _ => "dict"
  end.

(** [d.get(key, default)] on the dict of a JSON object; when the document
    repeats a key, [json.load] keeps the last value. *)
Fixpoint dict_get (fields : list (string * Json)) (key : string)
    (default : Json) : Json :=
  match fields with
  | [] => default
  | (k, v) :: rest =>
      dict_get rest key (if String.eqb k key then v else default)
  end.

(** How [open(config_file, 'r')] followed by [json.load(f)] ends:
    [OtherError] stands for the exceptions [_load_config] has no handler
    for (a permission error, a directory, undecodable bytes). *)
Inductive FileRead : Type :=
| ReadOk (doc : Json)
| FileNotFoundError
| JSONDecodeError (msg : string)
| OtherError (msg : string).

(** The part of the [logging] module that [Agent.__init__] uses: the
    attributes of the module ([getattr(logging, name)]) and how
    [logging.basicConfig(level=..., format=...)] ends for a level. *)
Class Logging : Type := {
  LoggingAttr : Type;
  logging_attr : string -> option LoggingAttr;
  basicConfig : LoggingAttr -> Completion unit
}.

Definition and_then {A B : Type} (c : Completion A)
    (k : A -> Completion B) : Completion B :=
  match c with
  | Returns a => k a
  | Propagates e => Propagates e
  end.

Notation "x <- c ;; k" := (and_then c (fun x => k))
  (at level 61, c at next level, right associativity).

Section Construction.
Context {H : Host} {L : Logging}.

(** The instance dictionary of an [Agent] object; an attribute is [None]
    until [__init__] has assigned it. *)
Record AgentObject : Type := mkObject {
  attr_name : option string;
  attr_tasks : option (list Task);
  attr_running : option bool;
  attr_config : option Json;
  attr_logger : option string
}.

Definition blank : AgentObject :=
  {| attr_name := None; attr_tasks := None; attr_running := None;
     attr_config := None; attr_logger := None |}.

(** [str(e)] of the [AttributeError] for a missing attribute. *)
Definition no_attribute (owner attribute : string) : string :=
  owner ++ " has no attribute '" ++ attribute ++ "'".

(** Reading [self.logger]. *)
Definition get_logger (self : AgentObject) : Completion string :=
  match attr_logger self with
  | Some l => Returns l
  | None =>
      Propagates (Exception (no_attribute "'Agent' object" "logger"))
  end.

(** [Agent._load_config]: both handlers start by calling a method of
    [self.logger]. *)
Definition _load_config (self : AgentObject) (read : FileRead)
    : Completion Json :=
  match read with
  | ReadOk doc => Returns doc
  | FileNotFoundError | JSONDecodeError _ =>
      _ <- get_logger self ;; Returns (JObject [])
  | OtherError msg => Propagates (Exception msg)
  end.

(** [self.config.get("log_level", "INFO")] *)
Definition config_get_log_level (config : Json) : Completion Json :=
  match config with
  | JObject fields => Returns (dict_get fields "log_level" (JString "INFO"))
  | other =>
      Propagates
        (Exception (no_attribute ("'" ++ type_name other ++ "' object") "get"))
  end.

(** [getattr(logging, log_level)] *)
Definition getattr_logging (log_level : Json) : Completion LoggingAttr :=
  match log_level with
  | JString s =>
      match logging_attr s with
      | Some v => Returns v
      | None => Propagates (Exception (no_attribute "module 'logging'" s))
      end
  | other =>
      Propagates (Exception ("attribute name must be string, not '"
                             ++ type_name other ++ "'"))
  end.

(** [Agent.__init__], statement by statement; [files] is the file system
    as [open] and [json.load] see it.  [None] and the empty string are the
    falsy values of [config_file]. *)
Definition agent_init (n : string) (config_file : option string)
    (files : string -> FileRead) : Completion AgentObject :=
  let self :=
    {| attr_name := Some n; attr_tasks := Some []; attr_running := Some false;
       attr_config := None; attr_logger := None |} in
  config <- match config_file with
            | None => Returns (JObject [])
            | Some path =>
                if String.eqb path "" then Returns (JObject [])
                else _load_config self (files path)
            end ;;
  let self :=
    {| attr_name := attr_name self; attr_tasks := attr_tasks self;
       attr_running := attr_running self; attr_config := Some config;
       attr_logger := attr_logger self |} in
  log_level <- config_get_log_level config ;;
  level <- getattr_logging log_level ;;
  _ <- basicConfig level ;;
  Returns {| attr_name := attr_name self; attr_tasks := attr_tasks self;
             attr_running := attr_running self;
             attr_config := attr_config self; attr_logger := Some n |}.

End Construction.

(** ** The summary printed by [demo.py] *)

(** [sum(1 for r in results if r["status"] == "success")] *)
Definition success_count (results : list Result) : nat :=
  List.length (filter (fun r => String.eqb (r_status r) "success") results).

(** [sum(1 for r in results if r["status"] == "failed")] *)
Definition failed_count (results : list Result) : nat :=
  List.length (filter (fun r => String.eqb (r_status r) "failed") results).

(** [result['message'] or result['error']]: the first operand if it is
    truthy ([None] and the empty string are not), else the second. *)
Definition detail (r : Result) : option string :=
  match r_message r with
  | Some m => if String.eqb m "" then r_error r else Some m
  | None => r_error r
  end.

(** ** A concrete host and sample tasks *)

Module Demo.

(** A world with a clock and the list that the actions of the test suite
    append to. *)
Record TestWorld : Type := mkWorld {
  clock : Q;
  appended : list string
}.

Definition host : Host :=
  {| World := TestWorld;
     time_time := clock;
     time_sleep := fun s w =>
       mkEffect {| clock := clock w + inject_Z s; appended := appended w |}
                Returned false;
     isoformat := fun t => str (Qnum t) ++ "/" ++ str (Zpos (Qden t)) |}.

#[local] Existing Instance host.

(** [def task(): results.append(s)] *)
Definition appends (s : string) (w : TestWorld) : Effect TestWorld :=
  mkEffect {| clock := clock w; appended := appended w ++ [s] |} Returned false.

(** [def failing_action(): raise ValueError("boom")] *)
Definition boom (w : TestWorld) : Effect TestWorld :=
  mkEffect w (Raises (Exception "boom")) false.

Definition w0 : TestWorld := {| clock := 100; appended := [] |}.

Definition env0 : Env := new_env w0.

Definition boom_task : Task := new_task "boom" boom 0 true.

(** A task that calls [agent.stop()] on the agent that runs it. *)
Definition halts (w : TestWorld) : Effect TestWorld :=
  mkEffect w Returned true.

Definition disabled_task : Task := new_task "off" (appends "off") 0 false.

Definition fresh_task : Task := new_task "fresh" (appends "fresh") 0 true.

(** A one-shot task that ran at time 90. *)
Definition done_task : Task :=
  set_status "completed"
    (set_run_count 1 (set_last_run (Some 90%Q)
                        (new_task "done" (appends "done") 0 true))).

(** A task due every 5 seconds that ran at time 90. *)
Definition periodic_task : Task :=
  set_status "completed"
    (set_run_count 1 (set_last_run (Some 90%Q)
                        (new_task "tick" (appends "tick") 5 true))).

Definition stoppable : Agent :=
  add_task "halt" halts 0 true (new_agent "Stoppable").

Definition workflow : Agent :=
  add_task "third" (appends "task3") 0 true
    (add_task "second" (appends "task2") 0 true
       (add_task "first" (appends "task1") 0 true (new_agent "WorkflowAgent"))).

(** [def interrupted(): raise KeyboardInterrupt] *)
Definition interrupted (w : TestWorld) : Effect TestWorld :=
  mkEffect w (Raises KeyboardInterrupt) false.

Definition interrupt_task : Task := new_task "ctrl-c" interrupted 0 true.

(** A task with a negative interval that ran at time 90. *)
Definition eager_task : Task :=
  set_status "completed"
    (set_run_count 1 (set_last_run (Some 90%Q)
                        (new_task "eager" (appends "eager") (-1) true))).

Definition w1 : TestWorld := {| clock := 200; appended := [] |}.

(** An interrupt between two ordinary tasks. *)
Definition interrupted_agent : Agent :=
  add_task "third" (appends "task3") 0 true
    (add_task "ctrl-c" interrupted 0 true
       (add_task "first" (appends "task1") 0 true (new_agent "Interrupted"))).


(** A failing task among ordinary ones. *)
Definition mixed : Agent :=
  add_task "third" (appends "task3") 5 true
    (add_task "boom" boom 0 true
       (add_task "first" (appends "task1") 0 true (new_agent "Mixed"))).

(** A host whose [time.sleep] is interrupted from the keyboard. *)
Definition nervous_host : Host :=
  {| World := TestWorld;
     time_time := clock;
     time_sleep := fun _ w => mkEffect w (Raises KeyboardInterrupt) false;
     isoformat := fun t => str (Qnum t) ++ "/" ++ str (Zpos (Qden t)) |}.

Definition nervous_agent : @Agent nervous_host :=
  @add_task nervous_host "first" (appends "task1") 0 true
    (@new_agent nervous_host "Nervous").

Definition nervous_env0 : @Env nervous_host := @new_env nervous_host w0.

(** A [logging] module with its level constants, nothing configured
    yet. *)
Definition logging : Logging :=
  {| LoggingAttr := Z;
     logging_attr := fun s =>
       if String.eqb s "DEBUG" then Some 10
       else if String.eqb s "INFO" then Some 20
       else if String.eqb s "WARNING" then Some 30
       else None;
     basicConfig := fun _ => Returns tt |}.

(** A file system with one configuration file. *)
Definition files (path : string) : FileRead :=
  if String.eqb path "config.json"
  then ReadOk (JObject [("log_level", JString "DEBUG")])
  else if String.eqb path "broken.json" then JSONDecodeError "Expecting value"
  else if String.eqb path "list.json" then ReadOk (JArray [JInt 1; JInt 2])
  else FileNotFoundError.

End Demo.

(** * Properties *)

(** Unfolds one [execute] call and splits on how the action ended. *)
Ltac split_execute t env :=
  unfold execute; cbn [set_status set_enabled action name];
  destruct (signal (action t (world env))) as [|[?msg| |]] eqn:?Hsig;
  simpl in *.

Section TaskProperties.
Context {H : Host}.

Lemma execute_keeps_identity (t : Task) (env : Env) :
  let t' := fst (fst (execute t env)) in
  name t' = name t /\ action t' = action t /\
  interval t' = interval t /\ enabled t' = enabled t.
Proof. split_execute t env; auto. Qed.

Lemma execute_env (t : Task) (env : Env) :
  snd (fst (execute t env))
  = after_call (Invoked (name t)) (action t (world env)) env.
Proof. split_execute t env; reflexivity. Qed.

Lemma execute_run_count (t : Task) (env : Env) :
  run_count (fst (fst (execute t env)))
  = run_count t + (if succeeded (snd (execute t env)) then 1 else 0).
Proof. split_execute t env; lia. Qed.

Lemma execute_status (t : Task) (env : Env) :
  let t' := fst (fst (execute t env)) in
  status t' = "running" \/ status t' = "completed" \/ status t' = "failed".
Proof. split_execute t env; auto. Qed.

(** C4: [should_run] is false for a disabled record; otherwise true when
    [last_run] is absent; otherwise false when the interval is 0; otherwise
    true exactly when the time elapsed since [last_run] is at least the
    interval. *)
Theorem should_run_spec (t : Task) (w : World) :
  (enabled t = false -> should_run t w = false) /\
  (enabled t = true -> last_run t = None -> should_run t w = true) /\
  (forall lr, enabled t = true -> last_run t = Some lr -> interval t = 0 ->
     should_run t w = false) /\
  (forall lr, enabled t = true -> last_run t = Some lr -> interval t <> 0 ->
     (should_run t w = true <-> (inject_Z (interval t) <= time_time w - lr)%Q)).
Proof.
  unfold should_run. split; [|split; [|split]].
  - intros ->. reflexivity.
  - intros -> ->. reflexivity.
  - intros lr -> -> ->. reflexivity.
  - intros lr -> -> Hnz. simpl.
    destruct (Z.eqb_spec (interval t) 0) as [E|_]; [contradiction|].
    apply Qle_bool_iff.
Qed.

(** C2: when the action signals a failure, [execute] returns normally; the
    result has status "failed", the failure's text in "error" and no
    "message"; the record's status is "failed" and [last_run] is left as it
    was, so readiness is unchanged: an enabled record that never ran
    successfully, whatever its interval, is still ready. *)
Theorem execute_failure_is_contained (t : Task) (env : Env) (msg : string) :
  signal (action t (world env)) = Raises (Exception msg) ->
  exists t' env' r,
    execute t env = (t', env', Returns r) /\
    r_task r = name t /\
    r_status r = "failed" /\ r_error r = Some msg /\ r_message r = None /\
    status t' = "failed" /\ last_run t' = last_run t /\
    (forall w, should_run t' w = should_run t w) /\
    (enabled t = true -> last_run t = None ->
     forall w, should_run t' w = true).
Proof.
  intros Hfail. unfold execute. simpl. rewrite Hfail.
  eexists _, _, _. split; [reflexivity|]. simpl.
  do 6 (split; [reflexivity|]).
  split; [reflexivity|].
  intros He Hl w. unfold should_run. simpl. rewrite He, Hl. reflexivity.
Qed.

(** C9: [execute] never reads [enabled]: executing a record commutes with
    setting the flag, and on a disabled record it still calls the action
    once (the store moves by exactly that call) and does the bookkeeping of
    the branch taken, while [should_run] and the gate of [run_once] reject
    the record and a sweep leaves it alone. *)
Theorem execute_ignores_enabled (t : Task) (env : Env) :
  (forall b, execute (set_enabled b t) env =
             match execute t env with
             | (t', env', c) => (set_enabled b t', env', c)
             end) /\
  (enabled t = false ->
   exists t' env' c,
     execute t env = (t', env', c) /\
     env' = after_call (Invoked (name t)) (action t (world env)) env /\
     journal env' = (journal env ++ [Invoked (name t)])%list /\
     enabled t' = false /\
     match signal (action t (world env)) with
     | Returned =>
         status t' = "completed" /\ run_count t' = run_count t + 1 /\
         last_run t' = Some (time_time (world env'))
     | Raises (Exception _) =>
         status t' = "failed" /\ run_count t' = run_count t /\
         last_run t' = last_run t
     | Raises _ =>
         status t' = "running" /\ run_count t' = run_count t /\
         last_run t' = last_run t
     end /\
     (forall w, should_run t w = false) /\
     never_ran t = false /\
     for_each should_run [t] env = ([t], env, Returns []) /\
     for_each (fun u _ => never_ran u) [t] env = ([t], env, Returns [])).
Proof.
  split.
  - intros b. split_execute t env; reflexivity.
  - intros Hd.
    assert (Hs : forall w, should_run t w = false)
      by (intros w; unfold should_run; rewrite Hd; reflexivity).
    assert (Hn : never_ran t = false)
      by (unfold never_ran; rewrite Hd; reflexivity).
    destruct (execute t env) as [[t' env'] c] eqn:Hex.
    exists t', env', c. split; [reflexivity|].
    pose proof (execute_env t env) as Henv. rewrite Hex in Henv. simpl in Henv.
    split; [exact Henv|]. split; [rewrite Henv; reflexivity|].
    pose proof (execute_keeps_identity t env) as Hid. rewrite Hex in Hid.
    simpl in Hid. destruct Hid as (_ & _ & _ & Hen).
    split; [congruence|].
    split.
    { revert Hex. split_execute t env; intros Hex; inversion Hex; subst;
        simpl; auto. }
    split; [exact Hs|]. split; [exact Hn|].
    simpl. rewrite Hs, Hn. split; reflexivity.
Qed.

Lemma executions_keep_action (envs : list Env) (t : Task) :
  action (fst (executions envs t)) = action t.
Proof.
  revert t. induction envs as [|env rest IH]; intros t; simpl; [reflexivity|].
  pose proof (execute_keeps_identity t env) as Hid.
  destruct (execute t env) as [[t' env'] c]. simpl in Hid.
  specialize (IH t'). destruct (executions rest t') as [t'' cs]. simpl in *.
  destruct Hid as (_ & Ha & _). congruence.
Qed.

Lemma executions_status (envs : list Env) (t : Task) :
  executed_status (status t) ->
  executed_status (status (fst (executions envs t))).
Proof.
  revert t. induction envs as [|env rest IH]; intros t Hst; simpl; [exact Hst|].
  pose proof (execute_status t env) as Hex.
  destruct (execute t env) as [[t' env'] c]. simpl in Hex.
  specialize (IH t' Hex). destruct (executions rest t') as [t'' cs].
  exact IH.
Qed.

(** C10: an [execute] whose action returns or fails returns, and whenever
    [execute] returns the status is "completed" or "failed"; from the first
    [execute] call on, whatever calls follow and however they end, the
    status is never "pending" again. *)
Theorem status_after_execute (t : Task) (env : Env) :
  (returns_or_fails (action t) ->
   exists t' env' r, execute t env = (t', env', Returns r)) /\
  (forall t' env' r, execute t env = (t', env', Returns r) ->
     status t' = "completed" \/ status t' = "failed") /\
  (forall later, status (fst (executions (env :: later) t)) <> "pending").
Proof.
  split; [|split].
  - intros Hact. destruct (Hact (world env)) as [Hr|[msg Hf]];
      unfold execute; simpl; rewrite ?Hr, ?Hf; eexists _, _, _; reflexivity.
  - intros t' env' r. split_execute t env; intros Hex; inversion Hex; subst;
      simpl; auto.
  - intros later. simpl.
    pose proof (execute_status t env) as Hex.
    destruct (execute t env) as [[t' env'] c]. simpl in Hex.
    pose proof (executions_status later t' Hex) as Hst.
    destruct (executions later t') as [t'' cs]. simpl in *.
    destruct Hst as [E|[E|E]]; rewrite E; discriminate.
Qed.

Lemma execute_counts_return (t : Task) (env : Env) :
  run_count (fst (fst (execute t env)))
  = run_count t + (if action_succeeds t (world env) then 1 else 0) /\
  succeeded (snd (execute t env)) = action_succeeds t (world env).
Proof.
  unfold action_succeeds. split_execute t env; split; solve [lia|reflexivity].
Qed.

(** C1, as the code has it: [execute] adds one to [run_count] exactly when
    the action returned, and leaves it alone when the action failed; after
    any history of calls [run_count] has grown by the number of calls in
    which the action returned, which is the number of results with status
    "success"; so a record whose action always fails keeps its [run_count]
    and one whose action always returns counts every call. *)
Theorem run_count_counts_successes (envs : list Env) (t : Task) :
  let after := executions envs t in
  List.length (snd after) = List.length envs /\
  (forall env,
     run_count (fst (fst (execute t env)))
     = run_count t + (if action_succeeds t (world env) then 1 else 0)) /\
  run_count (fst after)
  = run_count t
    + Z.of_nat (List.length
                  (filter (fun env => action_succeeds t (world env)) envs)) /\
  run_count (fst after)
  = run_count t + Z.of_nat (List.length (filter succeeded (snd after))) /\
  ((forall w, exists msg, signal (action t w) = Raises (Exception msg)) ->
   run_count (fst after) = run_count t) /\
  ((forall w, signal (action t w) = Returned) ->
   run_count (fst after) = run_count t + Z.of_nat (List.length envs)).
Proof.
  revert t. induction envs as [|env rest IH]; intros t; simpl.
  - split; [reflexivity|].
    split; [intros env; apply execute_counts_return|].
    split; [lia|]. split; [lia|]. split; intros _; lia.
  - destruct (execute_counts_return t env) as [Hrc Hsucc].
    pose proof (execute_keeps_identity t env) as Hid.
    destruct (execute t env) as [[t' env'] c] eqn:Hex. simpl in Hrc, Hsucc, Hid.
    destruct Hid as (_ & Hact & _).
    specialize (IH t'). destruct (executions rest t') as [t'' cs].
    simpl in *. destruct IH as (Hlen & _ & Hret & Hcount & Hfail & Hall).
    assert (Hsame : filter (fun e => action_succeeds t' (world e)) rest
                    = filter (fun e => action_succeeds t (world e)) rest)
      by (apply filter_ext; intros e; unfold action_succeeds;
          rewrite Hact; reflexivity).
    rewrite Hsame in Hret.
    split; [congruence|].
    split; [intros env0; apply execute_counts_return|].
    split; [destruct (action_succeeds t (world env)); simpl in *; lia|].
    split; [rewrite Hsucc;
            destruct (action_succeeds t (world env)); simpl in *; lia|].
    split.
    + intros Hf. rewrite Hfail by (rewrite Hact; exact Hf). rewrite Hrc.
      unfold action_succeeds. destruct (Hf (world env)) as [msg ->]. lia.
    + intros Hr. rewrite Hall by (rewrite Hact; exact Hr). rewrite Hrc.
      unfold action_succeeds. rewrite Hr. lia.
Qed.

End TaskProperties.

Section AgentProperties.
Context {H : Host}.

Lemma index_of_name_none (n : string) (ts : list Task) :
  index_of_name n ts = None <-> (forall t, In t ts -> name t <> n).
Proof.
  induction ts as [|t rest IH]; simpl.
  - split; [intros _ t []|reflexivity].
  - destruct (String.eqb_spec (name t) n) as [E|E].
    + split; [discriminate|]. intros Hall. exfalso. apply (Hall t); auto.
    + destruct (index_of_name n rest) as [i|]; simpl.
      * split; [discriminate|]. intros Hall.
        assert (Hn : @None nat = None) by reflexivity.
        destruct IH as [_ IH].
        assert (Hrest : forall u, In u rest -> name u <> n)
          by (intros u Hu; apply Hall; auto).
        specialize (IH Hrest). discriminate.
      * split; [|reflexivity]. intros _ u [<-|Hu]; [exact E|].
        destruct IH as [IH _]. apply IH; auto.
Qed.

Lemma index_of_name_some (n : string) (ts : list Task) (i : nat) :
  index_of_name n ts = Some i ->
  exists before t after,
    ts = (before ++ t :: after)%list /\ name t = n /\
    (forall u, In u before -> name u <> n) /\
    pop i ts = (before ++ after)%list.
Proof.
  revert i. induction ts as [|t rest IH]; simpl; intros i; [discriminate|].
  destruct (String.eqb_spec (name t) n) as [E|E].
  - intros Hi. inversion Hi; subst i. exists [], t, rest.
    repeat split; auto.
  - destruct (index_of_name n rest) as [j|]; simpl; [|discriminate].
    intros Hi. inversion Hi; subst i.
    destruct (IH j eq_refl) as (before & u & after & -> & Hu & Hb & Hpop).
    exists (t :: before), u, after. repeat split; auto.
    + intros v [<-|Hv]; auto.
    + unfold pop in *. simpl. f_equal. exact Hpop.
Qed.

(** C6: when no record has the name, [remove_task] returns [False] and
    leaves the agent, hence the registry, as it was; when some record has
    it, [remove_task] returns [True] and the registry loses exactly the
    first such record, the others keeping their order. *)
Theorem remove_task_spec (n : string) (a : Agent) :
  ((forall t, In t (tasks a) -> name t <> n) ->
   remove_task n a = (a, false)) /\
  ((exists t, In t (tasks a) /\ name t = n) ->
   exists before t after,
     tasks a = (before ++ t :: after)%list /\ name t = n /\
     (forall u, In u before -> name u <> n) /\
     remove_task n a = (set_tasks (before ++ after) a, true)).
Proof.
  unfold remove_task. split.
  - intros Hnone. apply index_of_name_none in Hnone. rewrite Hnone.
    reflexivity.
  - intros (t & Hin & Hname).
    destruct (index_of_name n (tasks a)) as [i|] eqn:Hidx.
    + destruct (index_of_name_some _ _ _ Hidx)
        as (before & u & after & Hts & Hu & Hb & Hpop).
      exists before, u, after. rewrite Hpop. auto.
    + exfalso. apply (proj1 (index_of_name_none n (tasks a)) Hidx t Hin Hname).
Qed.

(** C7: [get_task_status] leaves the agent, hence every field of every
    record, as it was, and returns one snapshot per record, in registry
    order, carrying the record's name, status, enabled flag, interval and
    run count, and its last run either formatted or absent (absent when
    [last_run] is [None] or the falsy timestamp 0). *)
Theorem get_task_status_spec (a : Agent) :
  fst (get_task_status a) = a /\
  List.length (snd (get_task_status a)) = List.length (tasks a) /\
  Forall2
    (fun t s =>
       s_name s = name t /\ s_status s = status t /\
       s_enabled s = enabled t /\ s_interval s = interval t /\
       s_run_count s = run_count t /\
       match last_run t with
       | None => s_last_run s = None
       | Some lr =>
           s_last_run s = if Qeq_bool lr 0 then None else Some (isoformat lr)
       end)
    (tasks (fst (get_task_status a))) (snd (get_task_status a)) /\
  get_task_status (fst (get_task_status a)) = get_task_status a.
Proof.
  unfold get_task_status. simpl. split; [reflexivity|].
  split; [apply length_map|]. split; [|reflexivity].
  induction (tasks a) as [|t rest IH]; simpl; constructor; [|exact IH].
  do 5 (split; [reflexivity|]). simpl.
  destruct (last_run t) as [lr|]; reflexivity.
Qed.

Lemma execute_returns (t : Task) (env : Env) :
  returns_or_fails (action t) ->
  exists t' r,
    execute t env
    = (t', after_call (Invoked (name t)) (action t (world env)) env,
       Returns r) /\
    r_task r = name t /\
    (last_run t = None -> (last_run t' <> None <-> r_status r = "success")).
Proof.
  intros Hact. unfold execute. simpl.
  destruct (Hact (world env)) as [Hr|[msg Hf]]; rewrite ?Hr, ?Hf;
    eexists _, _; (split; [reflexivity|]); simpl; (split; [reflexivity|]);
    intros Hl.
  - split; [reflexivity|discriminate].
  - rewrite Hl. split; [contradiction|discriminate].
Qed.

(** The sweep of [run_once] over records whose actions return or fail. *)
Lemma for_each_never_ran (ts : list Task) (env : Env) :
  Forall (fun t => returns_or_fails (action t)) ts ->
  exists ts' env' rs,
    for_each (fun t _ => never_ran t) ts env = (ts', env', Returns rs) /\
    journal env'
    = (journal env ++ map Invoked (map name (filter never_ran ts)))%list /\
    map r_task rs = map name (filter never_ran ts) /\
    Forall2 (fun t t' => if never_ran t
                         then exists e, t' = fst (fst (execute t e))
                         else t' = t) ts ts' /\
    (forallb never_ran ts = true ->
     Forall2 (fun t' r => last_run t' <> None <-> r_status r = "success")
             ts' rs).
Proof.
  intros Hall. revert env.
  induction Hall as [|t rest Ht Hrest IH]; intros env; simpl.
  - exists [], env, []. rewrite app_nil_r. repeat split; constructor.
  - destruct (never_ran t) eqn:Hgate.
    + destruct (execute_returns t env Ht) as (t' & r & Hex & Hname & Hlast).
      rewrite Hex.
      destruct (IH (after_call (Invoked (name t)) (action t (world env)) env))
        as (rest' & env' & rs & Hfor & Hj & Hrs & Hrel & Hn).
      rewrite Hfor. exists (t' :: rest'), env', (r :: rs).
      split; [reflexivity|]. simpl. split.
      { rewrite Hj. simpl. rewrite <- app_assoc. reflexivity. }
      split; [congruence|]. split.
      { constructor; [|exact Hrel]. rewrite Hgate. exists env.
        rewrite Hex. reflexivity. }
      intros Hall'. constructor; [|exact (Hn Hall')].
      apply Hlast. unfold never_ran in Hgate.
      destruct (last_run t); [|reflexivity].
      rewrite andb_false_r in Hgate. discriminate.
    + destruct (IH env) as (rest' & env' & rs & Hfor & Hj & Hrs & Hrel & Hn).
      rewrite Hfor. exists (t :: rest'), env', rs.
      split; [reflexivity|]. split; [exact Hj|]. split; [exact Hrs|].
      split; [|discriminate].
      constructor; [|exact Hrel]. rewrite Hgate. reflexivity.
Qed.


Lemma execute_outcome (t : Task) (env : Env) :
  returns_or_fails (action t) ->
  exists t' r,
    execute t env
    = (t', after_call (Invoked (name t)) (action t (world env)) env,
       Returns r) /\
    executed_in t (world env) t' /\ reported_in t (world env) r.
Proof.
  intros Hact. unfold execute, executed_in, reported_in, action_succeeds.
  simpl. destruct (Hact (world env)) as [Hr|[msg Hf]]; rewrite ?Hr, ?Hf;
    eexists _, _; (split; [reflexivity|]); simpl; repeat split;
    solve [reflexivity|lia].
Qed.

(** The sweep of [run_once], record by record, in terms of the actions. *)
Lemma for_each_never_ran_outcomes (ts : list Task) (env : Env) :
  Forall (fun t => returns_or_fails (action t)) ts ->
  exists ts' env' rs,
    for_each (fun t _ => never_ran t) ts env = (ts', env', Returns rs) /\
    world env' = sweep_end ts (world env) /\
    Forall2 (fun tw t' => if never_ran (fst tw)
                          then executed_in (fst tw) (snd tw) t'
                          else t' = fst tw)
            (combine ts (sweep_worlds ts (world env))) ts' /\
    Forall2 (fun tw r => reported_in (fst tw) (snd tw) r)
            (filter (fun tw => never_ran (fst tw))
                    (combine ts (sweep_worlds ts (world env)))) rs.
Proof.
  intros Hall. revert env.
  induction Hall as [|t rest Ht Hrest IH]; intros env; simpl.
  - exists [], env, []. repeat split; constructor.
  - destruct (never_ran t) eqn:Hgate.
    + destruct (execute_outcome t env Ht) as (t' & r & Hex & Hrec & Hrep).
      rewrite Hex.
      destruct (IH (after_call (Invoked (name t)) (action t (world env)) env))
        as (rest' & env' & rs & Hfor & Hw & Hrecs & Hreps).
      rewrite Hfor. exists (t' :: rest'), env', (r :: rs).
      split; [reflexivity|]. split; [exact Hw|]. split.
      * constructor; [simpl; rewrite ?Hgate; exact Hrec|exact Hrecs].
      * simpl. rewrite ?Hgate. constructor; [exact Hrep|exact Hreps].
    + destruct (IH env) as (rest' & env' & rs & Hfor & Hw & Hrecs & Hreps).
      rewrite Hfor. exists (t :: rest'), env', rs.
      split; [reflexivity|]. split; [exact Hw|]. split.
      * constructor; [simpl; rewrite ?Hgate; reflexivity|exact Hrecs].
      * simpl. rewrite ?Hgate. exact Hreps.
Qed.



(** A sweep journals nothing but the actions it invokes. *)
Lemma for_each_journal (gate : Task -> World -> bool) (ts : list Task)
    (env : Env) :
  exists ns,
    journal (snd (fst (for_each gate ts env)))
    = (journal env ++ map Invoked ns)%list.
Proof.
  revert env. induction ts as [|t rest IH]; intros env; simpl.
  - exists []. simpl. rewrite app_nil_r. reflexivity.
  - destruct (gate t (world env)).
    + pose proof (execute_env t env) as Henv.
      destruct (execute t env) as [[t' env'] [r|e]]; simpl in Henv.
      * destruct (IH env') as [ns Hns].
        exists (name t :: ns).
        destruct (for_each gate rest env') as [[rest' env''] [rs|e]];
          simpl in *; rewrite Hns, Henv; simpl; rewrite <- app_assoc;
          reflexivity.
      * exists [name t]. simpl. rewrite Henv. reflexivity.
    + destruct (IH env) as [ns Hns]. exists ns.
      destruct (for_each gate rest env) as [[rest' env'] c]. exact Hns.
Qed.

Lemma invoked_not_sweep (ns : list string) :
  filter is_sweep (map Invoked ns) = [].
Proof. induction ns; simpl; auto. Qed.

Lemma invoked_not_sleep (ns : list string) :
  filter is_sleep (map Invoked ns) = [].
Proof. induction ns; simpl; auto. Qed.

Lemma run_loop_unfold (fuel : nat) (mi : option Z) (it : Z) (ts : list Task)
    (env : Env) :
  run_loop (S fuel) mi it ts env =
  if negb (running env) then Some (ts, env, ConditionFalse)
  else if limit_hit mi it then Some (ts, env, LimitReached)
  else
    let env1 := {| world := world env; running := running env;
                   journal := journal env ++ [SweepBegun] |} in
    match for_each should_run ts env1 with
    | (ts', env', Propagates e) => Some (ts', env', Raised_ e)
    | (ts', env', Returns _) =>
        let eff := time_sleep 1 (world env') in
        let env'' := after_call Slept eff env' in
        match signal eff with
        | Raises e => Some (ts', env'', Raised_ e)
        | Returned => run_loop fuel mi (it + 1) ts' env''
        end
    end.
Proof. reflexivity. Qed.

(** The loop of [run(max_iterations=1)], entered with [running] set. *)
Lemma run_loop_once (fuel : nat) (ts : list Task) (env : Env) :
  running env = true ->
  exists ts' env' x evs,
    run_loop (S (S fuel)) (Some 1) 0 ts env = Some (ts', env', x) /\
    journal env' = (journal env ++ evs)%list /\
    (List.length (filter is_sweep evs) <= 1)%nat /\
    (List.length (filter is_sleep evs) <= 1)%nat.
Proof.
  destruct env as [w r j]. cbn [running]. intros ->. rewrite run_loop_unfold.
  change (limit_hit (Some 1) 0) with false. cbn [negb world running journal].
  cbv beta match zeta.
  set (env1 := {| world := w; running := true;
                  journal := j ++ [SweepBegun] |}).
  destruct (for_each_journal should_run ts env1) as [ns Hns].
  destruct (for_each should_run ts env1) as [[ts' env'] [rs|e]];
    simpl in Hns.
  - destruct (signal (time_sleep 1 (world env'))) as [|e] eqn:Hsleep.
    + rewrite run_loop_unfold.
      change (limit_hit (Some 1) (0 + 1)) with true.
      exists ts', (after_call Slept (time_sleep 1 (world env')) env').
      exists (if negb (running
                         (after_call Slept (time_sleep 1 (world env')) env'))
              then ConditionFalse else LimitReached).
      exists (SweepBegun :: map Invoked ns ++ [Slept])%list.
      split; [destruct (negb _); reflexivity|].
      split.
      { simpl. rewrite Hns. subst env1. simpl.
        rewrite <- !app_assoc. reflexivity. }
      simpl. rewrite !filter_app, invoked_not_sweep, invoked_not_sleep.
      simpl. split; lia.
    + exists ts', (after_call Slept (time_sleep 1 (world env')) env'),
        (Raised_ e), (SweepBegun :: map Invoked ns ++ [Slept])%list.
      split; [reflexivity|]. split.
      { simpl. rewrite Hns. subst env1. simpl.
        rewrite <- !app_assoc. reflexivity. }
      simpl. rewrite !filter_app, invoked_not_sweep, invoked_not_sleep.
      simpl. split; lia.
  - exists ts', env', (Raised_ e), (SweepBegun :: map Invoked ns).
    split; [reflexivity|]. split.
    { rewrite Hns. subst env1. simpl. rewrite <- app_assoc. reflexivity. }
    simpl. rewrite invoked_not_sweep, invoked_not_sleep. simpl. split; lia.
Qed.

(** C5: [run(max_iterations=1)] returns after at most one sweep of the
    registry and one poll sleep, and however the loop of [run] is left
    (condition false, limit reached, interrupt or other exception),
    [running] is false afterwards. *)
Theorem run_one_iteration_and_cleanup :
  (forall fuel a env,
     exists a' env' x evs,
       run (S (S fuel)) (Some 1) a env = Some (a', env', x) /\
       journal env' = (journal env ++ evs)%list /\
       (List.length (filter is_sweep evs) <= 1)%nat /\
       (List.length (filter is_sleep evs) <= 1)%nat /\
       running env' = false) /\
  (forall fuel max_iterations a env a' env' x,
     run fuel max_iterations a env = Some (a', env', x) ->
     running env' = false).
Proof.
  split.
  - intros fuel a env. unfold run.
    destruct (run_loop_once fuel (tasks a) (set_running true env) eq_refl)
      as (ts' & env' & x & evs & Hloop & Hj & Hsw & Hsl).
    rewrite Hloop. exists (set_tasks ts' a), (set_running false env'), x, evs.
    repeat split; auto.
  - intros fuel mi a env a' env' x. unfold run.
    destruct (run_loop fuel mi 0 (tasks a) (set_running true env))
      as [[[ts env1] y]|]; [|discriminate].
    intros Hrun. inversion Hrun; subst. reflexivity.
Qed.

Lemma limit_hit_zero (i : Z) : limit_hit (Some 0) i = false.
Proof. reflexivity. Qed.

Lemma run_loop_zero_limit (fuel : nat) (it : Z) (ts : list Task) (env : Env) :
  run_loop fuel (Some 0) it ts env = run_loop fuel None it ts env.
Proof.
  revert it ts env. induction fuel as [|fuel IH]; intros it ts env;
    [reflexivity|].
  rewrite !run_loop_unfold. change (limit_hit (Some 0) it) with false.
  change (limit_hit None it) with false.
  destruct (negb (running env)); [reflexivity|]. cbv beta match zeta.
  destruct (for_each should_run ts _) as [[ts' env'] [rs|e]]; [|reflexivity].
  destruct (signal (time_sleep 1 (world env'))); [apply IH|reflexivity].
Qed.

Lemma run_loop_exit (fuel : nat) (mi : option Z) (it : Z) (ts : list Task)
    (env : Env) (ts' : list Task) (env' : Env) (x : LoopExit) :
  (forall i, limit_hit mi i = false) ->
  running env = true ->
  run_loop fuel mi it ts env = Some (ts', env', x) ->
  x <> LimitReached /\
  exists evs, journal env' = (journal env ++ SweepBegun :: evs)%list.
Proof.
  intros Hlim. revert it ts env.
  induction fuel as [|fuel IH]; intros it ts env Hrun; [discriminate|].
  rewrite run_loop_unfold, Hlim, Hrun. cbn [negb]. cbv beta match zeta.
  set (env1 := {| world := world env; running := true;
                  journal := journal env ++ [SweepBegun] |}).
  destruct (for_each_journal should_run ts env1) as [ns Hns].
  destruct (for_each should_run ts env1) as [[ts1 env2] [rs|e]];
    simpl in Hns.
  - destruct (signal (time_sleep 1 (world env2))) as [|e] eqn:Hsleep.
    + destruct (running (after_call Slept (time_sleep 1 (world env2)) env2))
        eqn:Hrun2.
      * intros Hloop. destruct (IH _ _ _ Hrun2 Hloop) as [Hx [evs Hevs]].
        split; [exact Hx|]. rewrite Hevs. simpl. rewrite Hns.
        exists (map Invoked ns ++ Slept :: SweepBegun :: evs)%list.
        rewrite <- !app_assoc. reflexivity.
      * destruct fuel as [|fuel']; [discriminate|].
        rewrite run_loop_unfold, Hrun2. cbn [negb].
        intros Hloop. inversion Hloop; subst. split; [discriminate|].
        simpl. rewrite Hns. exists (map Invoked ns ++ [Slept])%list.
        rewrite <- !app_assoc. reflexivity.
    + intros Hloop. inversion Hloop; subst. split; [discriminate|].
      simpl. rewrite Hns. exists (map Invoked ns ++ [Slept])%list.
      rewrite <- !app_assoc. reflexivity.
  - intros Hloop. inversion Hloop; subst. split; [discriminate|].
    rewrite Hns. exists (map Invoked ns). rewrite <- app_assoc. reflexivity.
Qed.

Lemma for_each_quiet (gate : Task -> World -> bool) (ts : list Task)
    (env : Env) :
  Forall quiet ts ->
  exists ts' env' rs,
    for_each gate ts env = (ts', env', Returns rs) /\
    running env' = running env /\ Forall quiet ts'.
Proof.
  intros Hq. revert env. induction Hq as [|t rest Ht Hrest IH]; intros env;
    simpl.
  - exists [], env, []. auto.
  - destruct (gate t (world env)).
    + destruct Ht as [Hact Hstop].
      destruct (execute_returns t env Hact) as (t' & r & Hex & _).
      pose proof (execute_keeps_identity t env) as Hid.
      rewrite Hex in *. simpl in Hid. destruct Hid as (_ & Ha & _).
      destruct (IH (after_call (Invoked (name t)) (action t (world env)) env))
        as (rest' & env' & rs & Hfor & Hrun & Hq').
      rewrite Hfor. exists (t' :: rest'), env', (r :: rs).
      split; [reflexivity|]. split.
      * rewrite Hrun. simpl. rewrite Hstop. reflexivity.
      * constructor; [|exact Hq']. unfold quiet. rewrite Ha. auto.
    + destruct (IH env) as (rest' & env' & rs & Hfor & Hrun & Hq').
      rewrite Hfor. exists (t :: rest'), env', rs. auto.
Qed.

Lemma run_loop_diverges (fuel : nat) (mi : option Z) (it : Z)
    (ts : list Task) (env : Env) :
  (forall i, limit_hit mi i = false) ->
  quiet_sleep -> Forall quiet ts -> running env = true ->
  run_loop fuel mi it ts env = None.
Proof.
  intros Hlim Hsleep. revert it ts env.
  induction fuel as [|fuel IH]; intros it ts env Hq Hrun; [reflexivity|].
  rewrite run_loop_unfold, Hlim, Hrun. cbn [negb]. cbv beta match zeta.
  set (env1 := {| world := world env; running := true;
                  journal := journal env ++ [SweepBegun] |}).
  destruct (for_each_quiet should_run ts env1 Hq)
    as (ts' & env' & rs & Hfor & Hrun' & Hq').
  rewrite Hfor. destruct (Hsleep 1 (world env')) as [Hs Hc]. rewrite Hs.
  apply IH; [exact Hq'|]. simpl. rewrite Hc, Hrun'. reflexivity.
Qed.

(** C8: [run(max_iterations=0)] behaves as [run()] with no limit: the guard
    reads 0 as falsy, so the loop is never left through the limit check and
    sweeps at least once; left alone (no [stop()], no interrupt) it never
    ends. *)
Theorem run_zero_limit_is_no_limit (a : Agent) (env : Env) :
  (forall fuel, run fuel (Some 0) a env = run fuel None a env) /\
  (forall fuel a' env' x,
     run fuel (Some 0) a env = Some (a', env', x) ->
     x <> LimitReached /\
     exists evs, journal env' = (journal env ++ SweepBegun :: evs)%list) /\
  (quiet_sleep -> Forall quiet (tasks a) ->
   forall fuel, run fuel (Some 0) a env = None).
Proof.
  split; [|split].
  - intros fuel. unfold run. rewrite run_loop_zero_limit. reflexivity.
  - intros fuel a' env' x. unfold run.
    destruct (run_loop fuel (Some 0) 0 (tasks a) (set_running true env))
      as [[[ts env1] y]|] eqn:Hloop; [|discriminate].
    intros Hrun. inversion Hrun; subst.
    exact (run_loop_exit fuel (Some 0) 0 (tasks a) (set_running true env)
             ts env1 x limit_hit_zero eq_refl Hloop).
  - intros Hsleep Hq fuel. unfold run.
    rewrite (run_loop_diverges fuel (Some 0) 0 (tasks a) (set_running true env)
               limit_hit_zero Hsleep Hq eq_refl).
    reflexivity.
Qed.

End AgentProperties.

(** * Instances on the test world *)

Lemma run_count_counts_successes_witness :
  ((forall w, exists msg,
      signal (action Demo.boom_task w) = Raises (Exception msg)) /\
   run_count (fst (executions [Demo.env0; Demo.env0] Demo.boom_task)) = 0) /\
  ((forall w, signal (action Demo.fresh_task w) = Returned) /\
   run_count (fst (executions [Demo.env0; Demo.env0] Demo.fresh_task)) = 2).
Proof.
  assert (Hfail : forall w, exists msg,
            signal (action Demo.boom_task w) = Raises (Exception msg))
    by (intros w; exists "boom"; reflexivity).
  assert (Hret : forall w, signal (action Demo.fresh_task w) = Returned)
    by (intros w; reflexivity).
  split; (split; [assumption|]).
  - pose proof (@run_count_counts_successes Demo.host
                  [Demo.env0; Demo.env0] Demo.boom_task) as P.
    destruct P as (_ & _ & _ & _ & P & _). exact (P Hfail).
  - pose proof (@run_count_counts_successes Demo.host
                  [Demo.env0; Demo.env0] Demo.fresh_task) as P.
    destruct P as (_ & _ & _ & _ & _ & P). exact (P Hret).
Defined.

(** C1 as stated fails: a record whose action always fails, executed twice,
    has [run_count] 0, not 2. *)
Lemma failing_twice_run_count_is_not_2 :
  (forall w, signal (Demo.boom w) = Raises (Exception "boom")) /\
  run_count Demo.boom_task = 0 /\
  run_count (fst (fst (execute Demo.boom_task Demo.env0))) = 0 /\
  run_count (fst (executions [Demo.env0; Demo.env0] Demo.boom_task)) = 0 /\
  run_count (fst (executions [Demo.env0; Demo.env0] Demo.boom_task)) <> 2.
Proof.
  split; [intros w; reflexivity|].
  split; [reflexivity|]. split; [reflexivity|]. split; [reflexivity|].
  vm_compute. discriminate.
Qed.

Lemma execute_failure_is_contained_witness :
  signal (action Demo.boom_task (world Demo.env0)) = Raises (Exception "boom")
  /\ exists t' env' r,
       execute Demo.boom_task Demo.env0 = (t', env', Returns r) /\
       r_status r = "failed" /\ r_error r = Some "boom" /\
       r_message r = None /\ status t' = "failed" /\
       last_run t' = None /\ forall w, should_run t' w = true.
Proof.
  split; [reflexivity|].
  destruct (@execute_failure_is_contained Demo.host Demo.boom_task Demo.env0
              "boom" eq_refl)
    as (t' & env' & r & Hex & _ & Hs & He & Hm & Hst & Hl & _ & Hready).
  exists t', env', r. repeat split; auto.
Defined.

Lemma should_run_spec_witness :
  (enabled Demo.disabled_task = false /\
   should_run Demo.disabled_task Demo.w0 = false) /\
  (enabled Demo.fresh_task = true /\ last_run Demo.fresh_task = None /\
   should_run Demo.fresh_task Demo.w0 = true) /\
  (enabled Demo.done_task = true /\ last_run Demo.done_task = Some 90%Q /\
   interval Demo.done_task = 0 /\
   should_run Demo.done_task Demo.w0 = false) /\
  (enabled Demo.periodic_task = true /\
   last_run Demo.periodic_task = Some 90%Q /\
   interval Demo.periodic_task <> 0 /\
   (should_run Demo.periodic_task Demo.w0 = true <->
    (inject_Z (interval Demo.periodic_task)
     <= @time_time Demo.host Demo.w0 - 90)%Q)).
Proof.
  split; [|split; [|split]].
  - split; [reflexivity|].
    exact (proj1 (@should_run_spec Demo.host Demo.disabled_task Demo.w0)
             eq_refl).
  - split; [reflexivity|]. split; [reflexivity|].
    exact (proj1 (proj2 (@should_run_spec Demo.host Demo.fresh_task Demo.w0))
             eq_refl eq_refl).
  - split; [reflexivity|]. split; [reflexivity|]. split; [reflexivity|].
    exact (proj1 (proj2 (proj2
             (@should_run_spec Demo.host Demo.done_task Demo.w0)))
             90%Q eq_refl eq_refl eq_refl).
  - assert (Hnz : interval Demo.periodic_task <> 0) by (simpl; lia).
    split; [reflexivity|]. split; [reflexivity|]. split; [exact Hnz|].
    exact (proj2 (proj2 (proj2
             (@should_run_spec Demo.host Demo.periodic_task Demo.w0)))
             90%Q eq_refl eq_refl Hnz).
Defined.

Lemma execute_ignores_enabled_witness :
  enabled Demo.disabled_task = false /\
  exists t' env' c,
    execute Demo.disabled_task Demo.env0 = (t', env', c) /\
    journal env' = [Invoked "off"] /\
    status t' = "completed" /\ run_count t' = 1 /\ enabled t' = false.
Proof.
  split; [reflexivity|].
  destruct (proj2 (@execute_ignores_enabled Demo.host Demo.disabled_task
                     Demo.env0) eq_refl)
    as (t' & env' & c & Hex & _ & Hj & He & Hm & _).
  exists t', env', c. simpl in Hm. destruct Hm as (Hst & Hrc & _).
  repeat split; auto.
Defined.

Lemma status_after_execute_witness :
  returns_or_fails (action Demo.boom_task) /\
  exists t' env' r,
    execute Demo.boom_task Demo.env0 = (t', env', Returns r) /\
    (status t' = "completed" \/ status t' = "failed").
Proof.
  assert (Hact : returns_or_fails (action Demo.boom_task))
    by (intros w; right; exists "boom"; reflexivity).
  split; [exact Hact|].
  pose proof (@status_after_execute Demo.host Demo.boom_task Demo.env0) as P.
  destruct P as (Hret & Hst & _).
  destruct (Hret Hact) as (t' & env' & r & Hex).
  exists t', env', r. split; [exact Hex|]. exact (Hst t' env' r Hex).
Defined.

Lemma appends_returns (s : string) :
  @returns_or_fails Demo.host (Demo.appends s).
Proof. intros w. left. reflexivity. Qed.

Lemma appends_never_stops (s : string) :
  @never_stops Demo.host (Demo.appends s).
Proof. intros w. reflexivity. Qed.


Lemma run_one_iteration_and_cleanup_witness :
  exists a' env' x,
    run 2 (Some 1) Demo.workflow Demo.env0 = Some (a', env', x) /\
    x = LimitReached /\ running env' = false.
Proof.
  destruct (run 2 (Some 1) Demo.workflow Demo.env0)
    as [[[a' env'] x]|] eqn:Hrun.
  - exists a', env', x. split; [reflexivity|]. split.
    + vm_compute in Hrun. inversion Hrun. reflexivity.
    + exact (proj2 (@run_one_iteration_and_cleanup Demo.host)
               2%nat (Some 1) Demo.workflow Demo.env0 a' env' x Hrun).
  - vm_compute in Hrun. discriminate.
Defined.

Lemma remove_task_spec_witness :
  ((forall t, In t (tasks Demo.workflow) -> name t <> "nonexistent") /\
   remove_task "nonexistent" Demo.workflow = (Demo.workflow, false)) /\
  ((exists t, In t (tasks Demo.workflow) /\ name t = "second") /\
   exists before t after,
     tasks Demo.workflow = (before ++ t :: after)%list /\
     name t = "second" /\
     remove_task "second" Demo.workflow
     = (set_tasks (before ++ after) Demo.workflow, true)).
Proof.
  assert (Hnone : forall t, In t (tasks Demo.workflow) ->
                            name t <> "nonexistent").
  { intros t [<-|[<-|[<-|[]]]]; discriminate. }
  assert (Hsome : exists t, In t (tasks Demo.workflow) /\ name t = "second").
  { exists (@new_task Demo.host "second" (Demo.appends "task2") 0 true).
    split; [right; left; reflexivity|reflexivity]. }
  split; (split; [assumption|]).
  - exact (proj1 (@remove_task_spec Demo.host "nonexistent" Demo.workflow)
             Hnone).
  - destruct (proj2 (@remove_task_spec Demo.host "second" Demo.workflow) Hsome)
      as (before & t & after & Hts & Hn & _ & Hrm).
    exists before, t, after. auto.
Defined.

Lemma run_zero_limit_is_no_limit_witness :
  (exists a' env' x,
     run 3 (Some 0) Demo.stoppable Demo.env0 = Some (a', env', x) /\
     x <> LimitReached) /\
  (@quiet_sleep Demo.host /\ Forall quiet (tasks Demo.workflow) /\
   run 100 (Some 0) Demo.workflow Demo.env0 = None).
Proof.
  split.
  - destruct (run 3 (Some 0) Demo.stoppable Demo.env0)
      as [[[a' env'] x]|] eqn:Hrun.
    + exists a', env', x. split; [reflexivity|].
      exact (proj1 (proj1 (proj2 (@run_zero_limit_is_no_limit Demo.host
                                    Demo.stoppable Demo.env0))
                      3%nat a' env' x Hrun)).
    + vm_compute in Hrun. discriminate.
  - assert (Hsleep : @quiet_sleep Demo.host)
      by (intros s w; split; reflexivity).
    assert (Hq : Forall quiet (tasks Demo.workflow))
      by (repeat (constructor;
                  [split; [apply appends_returns|apply appends_never_stops]|]);
          constructor).
    split; [exact Hsleep|]. split; [exact Hq|].
    exact (proj2 (proj2 (@run_zero_limit_is_no_limit Demo.host
                           Demo.workflow Demo.env0))
             Hsleep Hq 100%nat).
Defined.

(** * Further properties of [Task] *)

Section TaskFurther.
Context {H : Host}.

(** X1: a record as [Task.__init__] leaves it is ready exactly when it is
    enabled, for [should_run] and for the gate of [run_once] alike, whatever
    its interval and the clock. *)
Theorem fresh_task_ready_iff_enabled (n : string)
    (act : World -> Effect World) (i : Z) (e : bool) (w : World) :
  should_run (new_task n act i e) w = e /\
  never_ran (new_task n act i e) = e /\
  snapshot (new_task n act i e)
  = {| s_name := n; s_status := "pending"; s_enabled := e; s_interval := i;
       s_run_count := 0; s_last_run := None |}.
Proof.
  unfold should_run, never_ran, snapshot. simpl.
  destruct e; repeat split; reflexivity.
Qed.

(** X2: a successful [execute] uses up the record's first run: the gate of
    [run_once] rejects it from then on; with interval 0 [should_run] is
    false at every later clock reading; with another interval an enabled
    record is due exactly when the interval has passed since the clock
    reading taken right after the action. *)
Theorem success_consumes_first_run (t : Task) (env : Env) :
  signal (action t (world env)) = Returned ->
  let t' := fst (fst (execute t env)) in
  let finished := time_time (world_after (action t (world env))) in
  never_ran t' = false /\
  (interval t = 0 -> forall w, should_run t' w = false) /\
  (interval t <> 0 -> enabled t = true ->
   forall w, should_run t' w = true <->
             (inject_Z (interval t) <= time_time w - finished)%Q).
Proof.
  intros Hret. unfold execute. simpl. rewrite Hret. simpl.
  split; [unfold never_ran; simpl; apply andb_false_r|]. split.
  - intros Hi w. unfold should_run. simpl. rewrite Hi.
    destruct (enabled t); reflexivity.
  - intros Hi He w. unfold should_run. simpl. rewrite He. simpl.
    destruct (Z.eqb_spec (interval t) 0) as [E|_]; [contradiction|].
    apply Qle_bool_iff.
Qed.

(** X3: when the action returns, [execute] returns a result with status
    "success", no error, the time stamp read before the action and a
    message quoting the run count after the increment; the record is
    "completed", its run count one more, its [last_run] the clock reading
    after the action. *)
Theorem execute_success_result (t : Task) (env : Env) :
  signal (action t (world env)) = Returned ->
  exists t' env' r,
    execute t env = (t', env', Returns r) /\
    r_task r = name t /\
    r_timestamp r = isoformat (time_time (world env)) /\
    r_status r = "success" /\ r_error r = None /\
    r_message r = Some ("Task completed successfully (run #"
                        ++ str (run_count t + 1) ++ ")") /\
    status t' = "completed" /\ run_count t' = run_count t + 1 /\
    last_run t' = Some (time_time (world env')) /\
    world env' = world_after (action t (world env)).
Proof.
  intros Hret. unfold execute. simpl. rewrite Hret.
  eexists _, _, _. split; [reflexivity|]. simpl.
  repeat split; reflexivity.
Qed.

(** X4: an exception that is no [Exception] ([KeyboardInterrupt],
    [SystemExit]) leaves [execute]: no result is built and the record stays
    marked "running", with its run count, [last_run] and readiness as
    before the call. *)
Theorem execute_interrupt_leaves_running (t : Task) (env : Env) (e : Raised) :
  signal (action t (world env)) = Raises e ->
  (forall msg, e <> Exception msg) ->
  exists t' env',
    execute t env = (t', env', Propagates e) /\
    status t' = "running" /\ run_count t' = run_count t /\
    last_run t' = last_run t /\
    (forall w, should_run t' w = should_run t w) /\
    never_ran t' = never_ran t.
Proof.
  intros Hsig Hne. unfold execute. simpl. rewrite Hsig.
  destruct e as [msg| |]; [exfalso; apply (Hne msg); reflexivity| |];
    eexists _, _; (split; [reflexivity|]); simpl; repeat split; reflexivity.
Qed.

(** X5: whatever the history of [execute] calls and however each ends, the
    record keeps its name, its action, its interval and its enabled flag;
    its run count never goes down and, once set, [last_run] is never absent
    again, so the gate of [run_once] never reopens. *)
Theorem executions_invariants (envs : list Env) (t : Task) :
  let t' := fst (executions envs t) in
  name t' = name t /\ action t' = action t /\
  interval t' = interval t /\ enabled t' = enabled t /\
  run_count t <= run_count t' /\
  (last_run t <> None -> last_run t' <> None) /\
  (never_ran t = false -> never_ran t' = false).
Proof.
  revert t. induction envs as [|env rest IH]; intros t; simpl.
  - repeat split; auto. lia.
  - assert (Hstep : let u := fst (fst (execute t env)) in
              name u = name t /\ action u = action t /\
              interval u = interval t /\ enabled u = enabled t /\
              run_count t <= run_count u /\
              (last_run t <> None -> last_run u <> None)).
    { split_execute t env; repeat split; auto; try lia; discriminate. }
    destruct (execute t env) as [[u env'] c]. simpl in Hstep.
    specialize (IH u). destruct (executions rest u) as [t'' cs]. simpl in *.
    destruct Hstep as (Hn & Ha & Hi & He & Hc & Hl).
    destruct IH as (Hn' & Ha' & Hi' & He' & Hc' & Hl' & _).
    assert (Hlast : last_run t <> None -> last_run t'' <> None) by auto.
    repeat split; try congruence; try lia; auto.
    unfold never_ran. rewrite He', He.
    destruct (enabled t); [|reflexivity]. simpl.
    destruct (last_run t) as [lr|] eqn:Hlr; [|discriminate].
    intros _. destruct (last_run t''); [reflexivity|].
    exfalso. apply Hlast; [discriminate|reflexivity].
Qed.

(** X6: readiness is monotone in the clock: a record that [should_run] at
    one clock reading should run at every later one; and an enabled record
    with a negative interval is ready whenever the clock has not gone back
    behind its [last_run]. *)
Theorem should_run_monotone (t : Task) (w w' : World) :
  ((time_time w <= time_time w')%Q ->
   should_run t w = true -> should_run t w' = true) /\
  (forall lr, enabled t = true -> interval t < 0 -> last_run t = Some lr ->
     (lr <= time_time w)%Q -> should_run t w = true).
Proof.
  unfold should_run. split.
  - intros Hle. destruct (enabled t); simpl; [|discriminate].
    destruct (last_run t) as [lr|]; [|reflexivity].
    destruct (interval t =? 0); [discriminate|].
    rewrite !Qle_bool_iff. intros Hdue.
    apply Qle_trans with (time_time w - lr)%Q; [exact Hdue|].
    unfold Qminus. apply Qplus_le_l. exact Hle.
  - intros lr -> Hneg -> Hlr. simpl.
    destruct (Z.eqb_spec (interval t) 0) as [E|_]; [lia|].
    apply Qle_bool_iff.
    apply Qle_trans with 0%Q.
    + unfold Qle. simpl. lia.
    + unfold Qminus. apply (Qplus_le_l _ _ lr). ring_simplify. exact Hlr.
Qed.

End TaskFurther.

(** * Further properties of the registry *)

Section RegistryFurther.
Context {H : Host}.

Lemma index_of_name_app (n : string) (ts l : list Task) :
  index_of_name n (ts ++ l)
  = match index_of_name n ts with
    | Some i => Some i
    | None => option_map (Nat.add (List.length ts)) (index_of_name n l)
    end.
Proof.
  induction ts as [|t rest IH]; simpl.
  - destruct (index_of_name n l); reflexivity.
  - destruct (String.eqb (name t) n); [reflexivity|]. rewrite IH.
    destruct (index_of_name n rest); [reflexivity|].
    destruct (index_of_name n l); reflexivity.
Qed.

Lemma index_of_name_bound (n : string) (ts : list Task) (i : nat) :
  index_of_name n ts = Some i -> (i < List.length ts)%nat.
Proof.
  revert i. induction ts as [|t rest IH]; simpl; intros i; [discriminate|].
  destruct (String.eqb (name t) n).
  - intros Hi. inversion Hi. lia.
  - destruct (index_of_name n rest) as [j|]; simpl; [|discriminate].
    intros Hi. inversion Hi. specialize (IH j eq_refl). lia.
Qed.

Lemma pop_app_left (i : nat) (ts l : list Task) :
  (i < List.length ts)%nat -> pop i (ts ++ l) = (pop i ts ++ l)%list.
Proof.
  intros Hi. unfold pop.
  rewrite firstn_app, skipn_app.
  replace (i - List.length ts)%nat with 0%nat by lia.
  replace (S i - List.length ts)%nat with 0%nat by lia.
  simpl. rewrite app_nil_r, app_assoc. reflexivity.
Qed.

Lemma pop_last (ts : list Task) (x : Task) :
  pop (List.length ts) (ts ++ [x]) = ts.
Proof.
  unfold pop. rewrite firstn_app, skipn_app, firstn_all.
  replace (List.length ts - List.length ts)%nat with 0%nat by lia.
  replace (S (List.length ts) - List.length ts)%nat with 1%nat by lia.
  rewrite skipn_all2 by lia. simpl. rewrite !app_nil_r. reflexivity.
Qed.

(** X7: [remove_task] undoes [add_task] when the name is new to the
    registry; when the name is already registered, [remove_task] after
    [add_task] takes out the older record and the one just added stays,
    last in the registry. *)
Theorem add_then_remove (n : string) (act : World -> Effect World)
    (i : Z) (e : bool) (a : Agent) :
  ((forall t, In t (tasks a) -> name t <> n) ->
   remove_task n (add_task n act i e a) = (a, true)) /\
  ((exists t, In t (tasks a) /\ name t = n) ->
   exists before t after,
     tasks a = (before ++ t :: after)%list /\ name t = n /\
     (forall u, In u before -> name u <> n) /\
     remove_task n (add_task n act i e a)
     = (set_tasks (before ++ after ++ [new_task n act i e]) a, true)).
Proof.
  unfold remove_task, add_task. simpl. rewrite index_of_name_app. split.
  - intros Hnone. apply index_of_name_none in Hnone. rewrite Hnone. simpl.
    rewrite String.eqb_refl. simpl. rewrite Nat.add_0_r, pop_last.
    destruct a; reflexivity.
  - intros (t & Hin & Hname).
    destruct (index_of_name n (tasks a)) as [j|] eqn:Hidx.
    + destruct (index_of_name_some _ _ _ Hidx)
        as (before & u & after & Hts & Hu & Hb & Hpop).
      exists before, u, after. repeat split; auto.
      rewrite pop_app_left by (apply (index_of_name_bound n); exact Hidx).
      rewrite Hpop, <- app_assoc. reflexivity.
    + exfalso. apply (proj1 (index_of_name_none n (tasks a)) Hidx t Hin Hname).
Qed.

(** X8: a [remove_task] that returns [True] shortens the registry by one
    record, lowers the number of records with that name by one and leaves
    the number of records with any other name as it was; if the name was
    registered once, removing it again returns [False]. *)
Theorem remove_task_counts (n : string) (a a' : Agent) :
  remove_task n a = (a', true) ->
  S (List.length (tasks a')) = List.length (tasks a) /\
  S (count_name n (tasks a')) = count_name n (tasks a) /\
  (forall m, m <> n -> count_name m (tasks a') = count_name m (tasks a)) /\
  (count_name n (tasks a) = 1%nat -> remove_task n a' = (a', false)).
Proof.
  unfold remove_task.
  destruct (index_of_name n (tasks a)) as [i|] eqn:Hidx; [|discriminate].
  intros Hrm. inversion Hrm; subst a'. clear Hrm. simpl.
  destruct (index_of_name_some _ _ _ Hidx)
    as (before & u & after & Hts & Hu & Hb & Hpop).
  rewrite Hpop, Hts. unfold count_name.
  assert (Hcount : forall m,
            List.length (filter (fun t => String.eqb (name t) m)
                                (before ++ u :: after))
            = ((if String.eqb (name u) m then 1 else 0)
               + List.length (filter (fun t => String.eqb (name t) m)
                                     (before ++ after)))%nat).
  { intros m. rewrite !filter_app, !length_app. simpl.
    destruct (String.eqb (name u) m); simpl; lia. }
  split; [rewrite !length_app; simpl; lia|]. split; [|split].
  - rewrite Hcount, Hu, String.eqb_refl. reflexivity.
  - intros m Hm. rewrite Hcount.
    destruct (String.eqb_spec (name u) m) as [E|_];
      [congruence|reflexivity].
  - rewrite Hcount, Hu, String.eqb_refl, filter_app, length_app.
    intros Hone.
    assert (Hnone : index_of_name n (before ++ after) = None).
    { apply index_of_name_none. intros v Hv Hname.
      apply in_app_or in Hv. destruct Hv as [Hv|Hv]; [exact (Hb v Hv Hname)|].
      assert (Hin : In v (filter (fun t => String.eqb (name t) n) after))
        by (apply filter_In; split; [exact Hv|]; rewrite Hname;
            apply String.eqb_refl).
      destruct (filter (fun t => String.eqb (name t) n) after);
        [exact Hin|simpl in Hone; lia]. }
    simpl.
    rewrite Hnone. reflexivity.
Qed.

(** X9: [add_task] never rejects a name: the registry grows by one even if
    the name is taken, and the status report after it is the report before
    it followed by one entry for the new record, pending, with run count 0
    and no last run; chained calls register in call order. *)
Theorem add_task_report (n : string) (act : World -> Effect World)
    (i : Z) (e : bool) (a : Agent) :
  List.length (tasks (add_task n act i e a)) = S (List.length (tasks a)) /\
  count_name n (tasks (add_task n act i e a)) = S (count_name n (tasks a)) /\
  snd (get_task_status (add_task n act i e a))
  = (snd (get_task_status a)
     ++ [{| s_name := n; s_status := "pending"; s_enabled := e;
            s_interval := i; s_run_count := 0; s_last_run := None |}])%list /\
  (forall n2 act2 i2 e2,
     tasks (add_task n2 act2 i2 e2 (add_task n act i e a))
     = (tasks a ++ [new_task n act i e; new_task n2 act2 i2 e2])%list).
Proof.
  unfold add_task, count_name. simpl.
  rewrite filter_app, !length_app, map_app. simpl.
  rewrite String.eqb_refl. simpl.
  split; [lia|]. split; [lia|]. split; [reflexivity|].
  intros n2 act2 i2 e2. rewrite <- app_assoc. reflexivity.
Qed.

End RegistryFurther.

(** * Further properties of the sweeps *)

Section SweepFurther.
Context {H : Host}.

Lemma kept_refl (t : Task) : kept t t.
Proof. unfold kept. repeat split; lia. Qed.

Lemma kept_execute (t : Task) (env : Env) :
  kept t (fst (fst (execute t env))).
Proof. unfold kept. split_execute t env; repeat split; lia. Qed.

Lemma kept_all_refl (ts : list Task) : Forall2 kept ts ts.
Proof. induction ts; constructor; auto using kept_refl. Qed.

Lemma kept_all_trans (ts ts' ts'' : list Task) :
  Forall2 kept ts ts' -> Forall2 kept ts' ts'' -> Forall2 kept ts ts''.
Proof.
  intros H1. revert ts''. induction H1 as [|t t' l l' Ht Hl IH];
    intros ts'' H2; inversion H2; subst; constructor; auto.
  unfold kept in *. intuition (try congruence; try lia).
Qed.

Lemma for_each_kept (gate : Task -> World -> bool) (ts : list Task)
    (env : Env) :
  Forall2 kept ts (fst (fst (for_each gate ts env))).
Proof.
  revert env. induction ts as [|t rest IH]; intros env; simpl;
    [constructor|].
  destruct (gate t (world env)).
  - pose proof (kept_execute t env) as Hk.
    destruct (execute t env) as [[t' env'] [r|e]]; simpl in Hk.
    + specialize (IH env').
      destruct (for_each gate rest env') as [[rest' env''] [rs|e]];
        simpl in *; constructor; auto.
    + simpl. constructor; [exact Hk|apply kept_all_refl].
  - specialize (IH env).
    destruct (for_each gate rest env) as [[rest' env'] c]. simpl in *.
    constructor; [apply kept_refl|exact IH].
Qed.

Lemma run_loop_kept (fuel : nat) (mi : option Z) (it : Z) (ts : list Task)
    (env : Env) (ts' : list Task) (env' : Env) (x : LoopExit) :
  run_loop fuel mi it ts env = Some (ts', env', x) -> Forall2 kept ts ts'.
Proof.
  revert it ts env. induction fuel as [|fuel IH]; intros it ts env;
    [discriminate|].
  rewrite run_loop_unfold.
  destruct (negb (running env));
    [intros E; inversion E; subst; apply kept_all_refl|].
  destruct (limit_hit mi it);
    [intros E; inversion E; subst; apply kept_all_refl|].
  cbv beta zeta.
  match goal with
  | |- context [for_each should_run ts ?e] =>
      pose proof (for_each_kept should_run ts e) as Hk;
      destruct (for_each should_run ts e) as [[ts1 env1] [rs|e1]]
  end; simpl in Hk.
  - destruct (signal (time_sleep 1 (world env1))).
    + intros E. apply IH in E. exact (kept_all_trans _ _ _ Hk E).
    + intros E. inversion E; subst. exact Hk.
  - intros E. inversion E; subst. exact Hk.
Qed.

(** X10: no sweep adds, drops or reorders records, renames one, rebinds
    its action or touches its interval or enabled flag, and run counts only
    grow; this holds for [run_once] and for [run] however they end, an
    interrupt included. *)
Theorem sweeps_keep_registry (a : Agent) (env : Env) :
  (agent_name (fst (fst (run_once a env))) = agent_name a /\
   Forall2 kept (tasks a) (tasks (fst (fst (run_once a env))))) /\
  (forall fuel max_iterations a' env' x,
     run fuel max_iterations a env = Some (a', env', x) ->
     agent_name a' = agent_name a /\ Forall2 kept (tasks a) (tasks a')).
Proof.
  split.
  - unfold run_once.
    pose proof (for_each_kept (fun t _ => never_ran t) (tasks a) env) as Hk.
    destruct (for_each (fun t _ => never_ran t) (tasks a) env)
      as [[ts env'] c]. simpl in *. auto.
  - intros fuel mi a' env' x. unfold run.
    destruct (run_loop fuel mi 0 (tasks a) (set_running true env))
      as [[[ts env1] y]|] eqn:Hloop; [|discriminate].
    intros E. inversion E; subst. simpl. split; [reflexivity|].
    exact (run_loop_kept _ _ _ _ _ _ _ _ Hloop).
Qed.

(** The sweep of [run_once], with what it leaves for the next one. *)
Lemma for_each_never_ran_next (ts : list Task) (env : Env) :
  Forall (fun t => returns_or_fails (action t)) ts ->
  exists ts' env' rs,
    for_each (fun t _ => never_ran t) ts env = (ts', env', Returns rs) /\
    Forall (fun t => returns_or_fails (action t)) ts' /\
    map name (filter never_ran ts') = map r_task (filter failed rs).
Proof.
  intros Hall. revert env.
  induction Hall as [|t rest Ht Hrest IH]; intros env; simpl.
  - exists [], env, []. repeat split; constructor.
  - destruct (never_ran t) eqn:Hgate.
    + assert (Hex : exists t' env' r,
                execute t env = (t', env', Returns r) /\
                action t' = action t /\ r_task r = name t' /\
                never_ran t' = failed r).
      { unfold never_ran in Hgate. apply andb_prop in Hgate.
        destruct Hgate as [He Hl].
        destruct (last_run t) eqn:Hlast; [discriminate|].
        unfold execute. simpl.
        destruct (Ht (world env)) as [Hr|[msg Hf]]; rewrite ?Hr, ?Hf;
          eexists _, _, _; (split; [reflexivity|]); simpl;
          unfold never_ran; simpl; rewrite ?He, ?Hlast; auto. }
      destruct Hex as (t' & env' & r & Hex & Ha & Hn & Hnr). rewrite Hex.
      destruct (IH env') as (rest' & env'' & rs & Hfor & Hacts & Hnames).
      rewrite Hfor. exists (t' :: rest'), env'', (r :: rs).
      split; [reflexivity|]. split.
      * constructor; [rewrite Ha; exact Ht|exact Hacts].
      * simpl. rewrite Hnr. destruct (failed r); simpl; congruence.
    + destruct (IH env) as (rest' & env' & rs & Hfor & Hacts & Hnames).
      rewrite Hfor. exists (t :: rest'), env', rs.
      split; [reflexivity|]. split; [constructor; assumption|].
      simpl. rewrite Hgate. exact Hnames.
Qed.

(** X11: [run_once] retries what failed and nothing else: called again,
    it executes exactly the records whose result in the previous call was
    "failed", in registry order, whatever happened to the store meanwhile. *)
Theorem run_once_retries_failures (a : Agent) (env : Env) :
  Forall (fun t => returns_or_fails (action t)) (tasks a) ->
  exists a1 env1 rs1,
    run_once a env = (a1, env1, Returns rs1) /\
    forall env2, exists a2 env3 rs2,
      run_once a1 env2 = (a2, env3, Returns rs2) /\
      map r_task rs2 = map r_task (filter failed rs1) /\
      journal env3
      = (journal env2 ++ map Invoked (map r_task (filter failed rs1)))%list.
Proof.
  intros Hall. unfold run_once.
  destruct (for_each_never_ran_next (tasks a) env Hall)
    as (ts' & env1 & rs1 & Hfor & Hacts & Hnames).
  rewrite Hfor. exists (set_tasks ts' a), env1, rs1.
  split; [reflexivity|]. intros env2. simpl.
  destruct (for_each_never_ran ts' env2 Hacts)
    as (ts2 & env3 & rs2 & Hfor2 & Hj & Hrs & _).
  rewrite Hfor2. exists (set_tasks ts2 (set_tasks ts' a)), env3, rs2.
  split; [reflexivity|]. rewrite <- Hnames. split; assumption.
Qed.

Lemma for_each_skips (ts : list Task) (env : Env) :
  Forall (fun t => never_ran t = false) ts ->
  for_each (fun t _ => never_ran t) ts env = (ts, env, Returns []).
Proof.
  induction 1 as [|t rest Ht Hrest IH]; simpl; [reflexivity|].
  rewrite Ht, IH. reflexivity.
Qed.

Lemma for_each_all_return (ts : list Task) (env : Env) :
  Forall (fun t => forall w, signal (action t w) = Returned) ts ->
  exists ts' env' rs,
    for_each (fun t _ => never_ran t) ts env = (ts', env', Returns rs) /\
    Forall (fun t => never_ran t = false) ts' /\
    Forall (fun r => r_status r = "success") rs.
Proof.
  intros Hall. revert env.
  induction Hall as [|t rest Ht Hrest IH]; intros env; simpl.
  - exists [], env, []. repeat split; constructor.
  - destruct (never_ran t) eqn:Hgate.
    + unfold execute. simpl. rewrite Ht.
      match goal with
      | |- context [for_each _ rest ?e] =>
          destruct (IH e) as (rest' & env' & rs & Hfor & Hn & Hs)
      end.
      rewrite Hfor. eexists (_ :: rest'), env', (_ :: rs).
      split; [reflexivity|]. split; constructor; auto.
      unfold never_ran. simpl. apply andb_false_r.
    + destruct (IH env) as (rest' & env' & rs & Hfor & Hn & Hs).
      rewrite Hfor. exists (t :: rest'), env', rs.
      split; [reflexivity|]. split; [constructor; assumption|exact Hs].
Qed.

(** X12: when every action returns, one [run_once] settles the registry:
    all its results are successes, and every later [run_once] executes
    nothing, returns the empty list and leaves agent and store as they
    were, whatever the intervals and however much time has passed. *)
Theorem run_once_settles (a : Agent) (env : Env) :
  Forall (fun t => forall w, signal (action t w) = Returned) (tasks a) ->
  exists a1 env1 rs,
    run_once a env = (a1, env1, Returns rs) /\
    Forall (fun r => r_status r = "success") rs /\
    forall env2, run_once a1 env2 = (a1, env2, Returns []).
Proof.
  intros Hall. unfold run_once.
  destruct (for_each_all_return (tasks a) env Hall)
    as (ts' & env1 & rs & Hfor & Hn & Hs).
  rewrite Hfor. exists (set_tasks ts' a), env1, rs.
  split; [reflexivity|]. split; [exact Hs|].
  intros env2. simpl. rewrite (for_each_skips ts' env2 Hn). reflexivity.
Qed.

Lemma for_each_then_interrupt (gate : Task -> World -> bool)
    (before after : list Task) (t t1 : Task) (env env_b env1 : Env)
    (before' : list Task) (rs : list Result) (e : Raised) :
  for_each gate before env = (before', env_b, Returns rs) ->
  gate t (world env_b) = true ->
  execute t env_b = (t1, env1, Propagates e) ->
  for_each gate (before ++ t :: after) env
  = ((before' ++ t1 :: after)%list, env1, Propagates e).
Proof.
  revert env before' rs. induction before as [|u rest IH];
    intros env before' rs; simpl.
  - intros E Hgate Hex. inversion E; subst. rewrite Hgate, Hex. reflexivity.
  - destruct (gate u (world env)).
    + destruct (execute u env) as [[u' env2] [r|e2]]; [|discriminate].
      destruct (for_each gate rest env2) as [[rest' env3] [rs'|e2]] eqn:Hfor;
        [|discriminate].
      intros E Hgate Hex. inversion E; subst.
      rewrite (IH _ _ _ Hfor Hgate Hex). reflexivity.
    + destruct (for_each gate rest env) as [[rest' env3] c] eqn:Hfor.
      intros E Hgate Hex. inversion E; subst.
      rewrite (IH _ _ _ Hfor Hgate Hex). reflexivity.
Qed.

(** X13: an interrupt cuts [run_once] short: the caller gets the exception
    and no result list, the interrupted record is left marked "running",
    the records after it are neither executed nor changed, and the records
    before it are left exactly as the sweep over them alone leaves them:
    each one that passed the gate shows the outcome of its action, called
    in the world the previous calls left. *)
Theorem run_once_interrupted (a : Agent) (env : Env)
    (before after : list Task) (t : Task) (e : Raised) :
  tasks a = (before ++ t :: after)%list ->
  Forall (fun u => returns_or_fails (action u)) before ->
  never_ran t = true ->
  (forall w, signal (action t w) = Raises e) ->
  (forall msg, e <> Exception msg) ->
  exists before' env_b rs_b,
    for_each (fun u _ => never_ran u) before env
    = (before', env_b, Returns rs_b) /\
    run_once a env
    = (set_tasks (before' ++ set_status "running" t :: after) a,
       after_call (Invoked (name t)) (action t (world env_b)) env_b,
       Propagates e) /\
    world env_b = sweep_end before (world env) /\
    Forall2 (fun uw u' => if never_ran (fst uw)
                          then executed_in (fst uw) (snd uw) u'
                          else u' = fst uw)
            (combine before (sweep_worlds before (world env))) before' /\
    Forall2 kept before before' /\
    journal env_b
    = (journal env ++ map Invoked (map name (filter never_ran before)))%list.
Proof.
  intros Hts Hbefore Hgate Hsig Hne. unfold run_once. rewrite Hts. clear Hts.
  destruct (for_each_never_ran_outcomes before env Hbefore)
    as (before' & env_b & rs_b & Hfor & Hw & Hrecs & _).
  destruct (for_each_never_ran before env Hbefore)
    as (b2 & e2 & r2 & Hfor2 & Hj & _).
  rewrite Hfor in Hfor2. inversion Hfor2; subst b2 e2 r2. clear Hfor2.
  assert (Hint : execute t env_b
                 = (set_status "running" t,
                    after_call (Invoked (name t)) (action t (world env_b))
                               env_b,
                    Propagates e)).
  { unfold execute. simpl. rewrite Hsig.
    destruct e as [msg| |]; [exfalso; apply (Hne msg)|..]; reflexivity. }
  rewrite (for_each_then_interrupt (fun u _ => never_ran u) before after t
             _ env env_b _ before' rs_b e Hfor Hgate Hint).
  exists before', env_b, rs_b. split; [exact Hfor|]. split; [reflexivity|].
  split; [exact Hw|]. split; [exact Hrecs|]. split; [|exact Hj].
  pose proof (for_each_kept (fun u _ => never_ran u) before env) as Hk.
  rewrite Hfor in Hk. exact Hk.
Qed.

End SweepFurther.

(** * Further properties of [run] *)

Section RunFurther.
Context {H : Host}.

(** X14: a negative [max_iterations] is truthy and already reached at
    iteration 0: [run] leaves through the limit check before the first
    sweep, so no task is executed and nothing is slept; only [running] is
    reset. *)
Theorem run_negative_limit (m : Z) (fuel : nat) (a : Agent) (env : Env) :
  m < 0 ->
  run (S fuel) (Some m) a env = Some (a, stop env, LimitReached).
Proof.
  intros Hm. unfold run. rewrite run_loop_unfold. simpl.
  destruct (Z.eqb_spec m 0) as [E|_]; [lia|].
  destruct (Z.leb_spec m 0) as [_|E]; [|lia]. simpl.
  destruct a; reflexivity.
Qed.

Lemma limit_hit_below (m it : Z) : 0 <= it < m -> limit_hit (Some m) it = false.
Proof.
  intros Hit. simpl. destruct (Z.leb_spec m it) as [E|_]; [lia|].
  apply andb_false_r.
Qed.

Lemma limit_hit_at (m : Z) : 0 < m -> limit_hit (Some m) m = true.
Proof.
  intros Hm. simpl. destruct (Z.eqb_spec m 0) as [E|_]; [lia|].
  rewrite Z.leb_refl. reflexivity.
Qed.

(** The loop of [run] from iteration [it], [k] iterations below the limit,
    with quiet tasks and sleep. *)
Lemma run_loop_counts (k extra : nat) (m : Z) :
  quiet_sleep -> 0 < m ->
  forall (it : Z) (ts : list Task) (env : Env),
    0 <= it -> it + Z.of_nat k = m ->
    Forall quiet ts -> running env = true ->
    exists ts' env' evs,
      run_loop (S k + extra) (Some m) it ts env
      = Some (ts', env', LimitReached) /\
      journal env' = (journal env ++ evs)%list /\
      List.length (filter is_sweep evs) = k /\
      List.length (filter is_sleep evs) = k.
Proof.
  intros Hsleep Hm. induction k as [|k IH]; intros it ts env Hit Hk Hq Hrun.
  - replace it with m by lia. rewrite run_loop_unfold, Hrun, limit_hit_at by lia.
    exists ts, env, []. rewrite app_nil_r. repeat split; reflexivity.
  - change (S (S k) + extra)%nat with (S (S k + extra)).
    rewrite run_loop_unfold, Hrun, limit_hit_below by lia.
    cbn [negb]. cbv beta match zeta.
    set (env1 := {| world := world env; running := true;
                    journal := journal env ++ [SweepBegun] |}).
    destruct (for_each_journal should_run ts env1) as [ns Hns].
    destruct (for_each_quiet should_run ts env1 Hq)
      as (ts1 & env2 & rs & Hfor & Hrun2 & Hq2).
    rewrite Hfor in *. simpl in Hns.
    destruct (Hsleep 1 (world env2)) as [Hs Hc]. rewrite Hs.
    destruct (IH (it + 1) ts1
                (after_call Slept (time_sleep 1 (world env2)) env2))
      as (ts' & env' & evs & Hloop & Hj & Hsw & Hsl); try lia; auto.
    { simpl. rewrite Hc, Hrun2. reflexivity. }
    rewrite Hloop. exists ts', env'.
    exists (SweepBegun :: map Invoked ns ++ Slept :: evs)%list.
    split; [reflexivity|]. split.
    { rewrite Hj. simpl. rewrite Hns. subst env1. simpl.
      rewrite <- !app_assoc. reflexivity. }
    simpl. rewrite !filter_app, invoked_not_sweep, invoked_not_sleep. simpl.
    split; lia.
Qed.

(** X15: with a positive [max_iterations = n] and nothing stopping or
    interrupting it, [run] performs exactly [n] sweeps and [n] poll sleeps
    and leaves through the limit check, with [running] reset. *)
Theorem run_counts_iterations (n : Z) (extra : nat) (a : Agent) (env : Env) :
  0 < n -> quiet_sleep -> Forall quiet (tasks a) ->
  exists a' env' evs,
    run (S (Z.to_nat n) + extra) (Some n) a env
    = Some (a', env', LimitReached) /\
    journal env' = (journal env ++ evs)%list /\
    List.length (filter is_sweep evs) = Z.to_nat n /\
    List.length (filter is_sleep evs) = Z.to_nat n /\
    running env' = false.
Proof.
  intros Hn Hsleep Hq. unfold run.
  destruct (run_loop_counts (Z.to_nat n) extra n Hsleep Hn 0 (tasks a)
              (set_running true env))
    as (ts' & env' & evs & Hloop & Hj & Hsw & Hsl); try lia; auto.
  rewrite Hloop. exists (set_tasks ts' a), (set_running false env'), evs.
  repeat split; auto.
Qed.

Lemma for_each_returns (gate : Task -> World -> bool) (ts : list Task)
    (env : Env) :
  Forall (fun t => returns_or_fails (action t)) ts ->
  exists ts' env' rs, for_each gate ts env = (ts', env', Returns rs).
Proof.
  intros Hall. revert env.
  induction Hall as [|t rest Ht Hrest IH]; intros env; simpl.
  - exists [], env, []. reflexivity.
  - destruct (gate t (world env)).
    + destruct (execute_returns t env Ht) as (t' & r & Hex & _). rewrite Hex.
      destruct (IH (after_call (Invoked (name t)) (action t (world env)) env))
        as (rest' & env' & rs & Hfor).
      rewrite Hfor. eexists _, _, _. reflexivity.
    + destruct (IH env) as (rest' & env' & rs & Hfor). rewrite Hfor.
      eexists _, _, _. reflexivity.
Qed.

(** X16: an exception raised by [time.sleep] ends [run] after the sweep of
    that iteration: the loop is left with that exception, [running] is
    reset, and the caller sees a normal return for [KeyboardInterrupt] and
    the exception itself otherwise. *)
Theorem run_interrupted_in_sleep (fuel : nat) (max_iterations : option Z)
    (a : Agent) (env : Env) (e : Raised) :
  limit_hit max_iterations 0 = false ->
  Forall (fun t => returns_or_fails (action t)) (tasks a) ->
  (forall w, signal (time_sleep 1 w) = Raises e) ->
  exists a' env' evs,
    run (S fuel) max_iterations a env = Some (a', env', Raised_ e) /\
    running env' = false /\
    journal env' = (journal env ++ evs)%list /\
    List.length (filter is_sweep evs) = 1%nat /\
    List.length (filter is_sleep evs) = 1%nat /\
    run_completion (Raised_ e)
    = match e with
      | KeyboardInterrupt => Returns tt
      | _ => Propagates e
      end.
Proof.
  intros Hlim Hall Hsleep. unfold run. rewrite run_loop_unfold, Hlim.
  cbn [set_running running negb world journal]. cbv beta match zeta.
  set (env1 := {| world := world env; running := true;
                  journal := journal env ++ [SweepBegun] |}).
  destruct (for_each_journal should_run (tasks a) env1) as [ns Hns].
  destruct (for_each_returns should_run (tasks a) env1 Hall)
    as (ts' & env' & rs & Hfor).
  rewrite Hfor in *. simpl in Hns. rewrite Hsleep.
  eexists _, _, (SweepBegun :: map Invoked ns ++ [Slept])%list.
  split; [reflexivity|]. split; [reflexivity|]. split.
  { simpl. rewrite Hns. rewrite <- !app_assoc. reflexivity. }
  simpl. rewrite !filter_app, invoked_not_sweep, invoked_not_sleep. simpl.
  split; [reflexivity|]. split; [reflexivity|]. destruct e; reflexivity.
Qed.




Lemma should_run_one_shot (t : Task) (w : World) :
  interval t = 0 -> should_run t w = never_ran t.
Proof.
  intros Hi. unfold should_run, never_ran. rewrite Hi.
  destruct (enabled t), (last_run t); reflexivity.
Qed.

Lemma invoked_all (ns : list string) :
  filter is_invoked (map Invoked ns) = map Invoked ns.
Proof. induction ns as [|n ns IH]; simpl; [|rewrite IH]; reflexivity. Qed.

(** The first sweep of [run] over one-shot tasks whose actions return. *)
Lemma sweep_one_shots (ts : list Task) (env : Env) :
  Forall (fun t => interval t = 0 /\
                   (forall w, signal (action t w) = Returned) /\
                   never_stops (action t)) ts ->
  exists ts' env' rs,
    for_each should_run ts env = (ts', env', Returns rs) /\
    journal env'
    = (journal env ++ map Invoked (map name (filter never_ran ts)))%list /\
    running env' = running env /\
    Forall (fun t => interval t = 0 /\ never_ran t = false) ts'.
Proof.
  intros Hall. revert env.
  induction Hall as [|t rest (Hi & Hret & Hstop) Hrest IH]; intros env; simpl.
  - exists [], env, []. rewrite app_nil_r. repeat split; constructor.
  - rewrite (should_run_one_shot t (world env) Hi).
    destruct (never_ran t) eqn:Hgate.
    + unfold execute. simpl. rewrite Hret.
      match goal with
      | |- context [for_each _ rest ?e] =>
          destruct (IH e) as (rest' & env' & rs & Hfor & Hj & Hrun & Hs)
      end.
      rewrite Hfor. eexists (_ :: rest'), env', (_ :: rs).
      split; [reflexivity|]. split.
      { rewrite Hj. simpl. rewrite <- app_assoc. reflexivity. }
      split; [rewrite Hrun; simpl; rewrite Hstop; reflexivity|].
      constructor; [|exact Hs]. simpl. split; [exact Hi|].
      unfold never_ran. simpl. apply andb_false_r.
    + destruct (IH env) as (rest' & env' & rs & Hfor & Hj & Hrun & Hs).
      rewrite Hfor. exists (t :: rest'), env', rs.
      split; [reflexivity|]. split; [exact Hj|]. split; [exact Hrun|].
      constructor; auto.
Qed.

Lemma sweep_settled (ts : list Task) (env : Env) :
  Forall (fun t => interval t = 0 /\ never_ran t = false) ts ->
  for_each should_run ts env = (ts, env, Returns []).
Proof.
  induction 1 as [|t rest [Hi Hn] Hrest IH]; simpl; [reflexivity|].
  rewrite (should_run_one_shot t (world env) Hi), Hn, IH. reflexivity.
Qed.

Lemma run_loop_settled (k extra : nat) (m : Z) :
  quiet_sleep -> 0 < m ->
  forall (it : Z) (ts : list Task) (env : Env),
    0 <= it -> it + Z.of_nat k = m ->
    Forall (fun t => interval t = 0 /\ never_ran t = false) ts ->
    running env = true ->
    exists env',
      run_loop (S k + extra) (Some m) it ts env
      = Some (ts, env', LimitReached) /\
      journal env' = (journal env ++ idle_sweeps k)%list.
Proof.
  intros Hsleep Hm. induction k as [|k IH]; intros it ts env Hit Hk Hs Hrun.
  - replace it with m by lia.
    rewrite run_loop_unfold, Hrun, limit_hit_at by lia.
    exists env. simpl. rewrite app_nil_r. split; reflexivity.
  - change (S (S k) + extra)%nat with (S (S k + extra)).
    rewrite run_loop_unfold, Hrun, limit_hit_below by lia.
    cbn [negb]. cbv beta match zeta. rewrite (sweep_settled ts _ Hs).
    cbn [world]. destruct (Hsleep 1 (world env)) as [Hsig Hc]. rewrite Hsig.
    match goal with
    | |- context [run_loop _ _ _ ts ?e] =>
        destruct (IH (it + 1) ts e) as (env' & Hloop & Hj);
          try lia; auto
    end.
    { simpl. rewrite Hc. reflexivity. }
    rewrite Hloop. exists env'. split; [reflexivity|].
    rewrite Hj. simpl. rewrite <- !app_assoc. reflexivity.
Qed.

Lemma idle_sweeps_invoke_nothing (k : nat) :
  filter is_invoked (idle_sweeps k) = [].
Proof. induction k as [|k IH]; simpl; [reflexivity|exact IH]. Qed.

(** X18: in a [run] of [n > 0] iterations, one-shot tasks (interval 0)
    whose actions return are executed once each, in the first sweep and in
    registry order; the [n - 1] sweeps that follow execute nothing.  The
    journal of the run is: the first sweep with its invocations, its poll
    sleep, then [n - 1] sweeps each followed only by its sleep. *)
Theorem one_shots_run_once_per_run (n : Z) (extra : nat) (a : Agent)
    (env : Env) :
  0 < n -> quiet_sleep ->
  Forall (fun t => interval t = 0 /\
                   (forall w, signal (action t w) = Returned) /\
                   never_stops (action t)) (tasks a) ->
  exists a' env',
    run (S (Z.to_nat n) + extra) (Some n) a env
    = Some (a', env', LimitReached) /\
    journal env'
    = (journal env
       ++ SweepBegun :: map Invoked (map name (filter never_ran (tasks a)))
       ++ Slept :: idle_sweeps (Z.to_nat n - 1))%list /\
    filter is_invoked (journal env')
    = (filter is_invoked (journal env)
       ++ map Invoked (map name (filter never_ran (tasks a))))%list /\
    Forall (fun t => never_ran t = false) (tasks a').
Proof.
  intros Hn Hsleep Hall. unfold run.
  destruct (Z.to_nat n) as [|k] eqn:Hk; [lia|].
  change (S (S k) + extra)%nat with (S (S k + extra)).
  rewrite run_loop_unfold, limit_hit_below by lia.
  cbn [set_running running negb world journal]. cbv beta match zeta.
  match goal with
  | |- context [for_each should_run (tasks a) ?e] =>
      destruct (sweep_one_shots (tasks a) e Hall)
        as (ts' & env1 & rs & Hfor & Hj & Hrun & Hs)
  end.
  rewrite Hfor. destruct (Hsleep 1 (world env1)) as [Hsig Hc]. rewrite Hsig.
  destruct (run_loop_settled k extra n Hsleep Hn (0 + 1) ts'
              (after_call Slept (time_sleep 1 (world env1)) env1))
    as (env' & Hloop & Hj'); try lia; auto.
  { simpl. rewrite Hc, Hrun. reflexivity. }
  rewrite Hloop. exists (set_tasks ts' a), (set_running false env').
  assert (Hjournal :
            journal (set_running false env')
            = (journal env
               ++ SweepBegun
               :: map Invoked (map name (filter never_ran (tasks a)))
               ++ Slept :: idle_sweeps (S k - 1))%list).
  { simpl. rewrite Hj'. simpl. rewrite Hj. simpl.
    rewrite Nat.sub_0_r, <- !app_assoc. reflexivity. }
  split; [reflexivity|]. split; [exact Hjournal|]. split.
  - rewrite Hjournal. rewrite filter_app. simpl. rewrite filter_app. simpl.
    rewrite invoked_all, idle_sweeps_invoke_nothing, app_nil_r.
    reflexivity.
  - simpl. apply Forall_impl with (2 := Hs). intros t [_ Ht]. exact Ht.
Qed.

End RunFurther.

(** * Construction and reporting *)

Section Reporting.
Context {H : Host}.

(** X19: [Agent.__init__] never returns an agent when [config_file] names
    a file that is missing or is not valid JSON, whatever the [logging]
    module does: the handlers of [_load_config] read [self.logger], which
    [__init__] assigns only in its last statement, so an [AttributeError]
    leaves the constructor.  Nor does it return when the file holds a JSON
    document that is not an object.  Whenever it does return, the agent has
    an empty registry, [running] false and its logger, and on that agent
    [_load_config] does fall back to the empty configuration; with a falsy
    [config_file] it returns as soon as [logging] has [INFO] and
    [basicConfig] returns. *)
Theorem agent_init_config_file {L : Logging} (n : string)
    (config_file : option string) (files : string -> FileRead) :
  (forall path,
     config_file = Some path -> path <> "" ->
     files path = FileNotFoundError \/
     (exists msg, files path = JSONDecodeError msg) ->
     agent_init n config_file files
     = Propagates (Exception "'Agent' object has no attribute 'logger'")) /\
  (forall path doc,
     config_file = Some path -> path <> "" ->
     files path = ReadOk doc -> (forall fields, doc <> JObject fields) ->
     exists msg, agent_init n config_file files = Propagates (Exception msg)) /\
  (forall self,
     agent_init n config_file files = Returns self ->
     attr_name self = Some n /\ attr_tasks self = Some [] /\
     attr_running self = Some false /\ attr_logger self = Some n /\
     _load_config self FileNotFoundError = Returns (JObject []) /\
     (forall msg, _load_config self (JSONDecodeError msg)
                  = Returns (JObject []))) /\
  (forall level,
     config_file = None \/ config_file = Some "" ->
     logging_attr "INFO" = Some level -> basicConfig level = Returns tt ->
     agent_init n config_file files
     = Returns {| attr_name := Some n; attr_tasks := Some [];
                  attr_running := Some false;
                  attr_config := Some (JObject []);
                  attr_logger := Some n |}).
Proof.
  split; [|split; [|split]].
  - intros path -> Hpath Hread. unfold agent_init.
    destruct (String.eqb_spec path "") as [E|_]; [contradiction|].
    destruct Hread as [->|[msg ->]]; reflexivity.
  - intros path doc -> Hpath Hread Hdoc. unfold agent_init.
    destruct (String.eqb_spec path "") as [E|_]; [contradiction|].
    rewrite Hread. simpl.
    destruct doc; try (eexists; reflexivity).
    exfalso. exact (Hdoc fields eq_refl).
  - intros self. unfold agent_init.
    destruct (match config_file with
              | Some path =>
                  if String.eqb path "" then Returns (JObject [])
                  else _load_config _ (files path)
              | None => Returns (JObject [])
              end) as [config|e]; [|discriminate].
    simpl. destruct (config_get_log_level config) as [lv|e]; [|discriminate].
    simpl. destruct (getattr_logging lv) as [level|e]; [|discriminate].
    simpl. destruct (basicConfig level) as [[]|e]; [|discriminate].
    simpl. intros E. inversion E; subst. simpl.
    repeat split; reflexivity.
  - intros level Hfile Hattr Hbasic. unfold agent_init.
    destruct Hfile as [->| ->]; simpl; rewrite Hattr; simpl; rewrite Hbasic;
      reflexivity.
Qed.

Lemma execute_result_shape (t : Task) (env : Env) (t' : Task) (env' : Env)
    (r : Result) :
  execute t env = (t', env', Returns r) ->
  (r_status r = "success" /\ r_error r = None /\
   exists m, r_message r = Some m /\ m <> "" /\
             status t' = "completed" /\ run_count t' = run_count t + 1) \/
  (r_status r = "failed" /\ r_message r = None /\
   exists msg, r_error r = Some msg /\
               status t' = "failed" /\ run_count t' = run_count t /\
               last_run t' = last_run t).
Proof.
  split_execute t env; intros E; inversion E; subst; simpl.
  - left. repeat split. eexists. split; [reflexivity|].
    split; [discriminate|]. split; reflexivity.
  - right. repeat split. eexists. repeat split; reflexivity.
Qed.

Lemma for_each_result_shapes (gate : Task -> World -> bool) (ts : list Task)
    (env : Env) (ts' : list Task) (env' : Env) (rs : list Result) :
  for_each gate ts env = (ts', env', Returns rs) ->
  Forall (fun r =>
            (r_status r = "success" /\ r_error r = None /\
             exists m, r_message r = Some m /\ m <> "") \/
            (r_status r = "failed" /\ r_message r = None /\
             exists msg, r_error r = Some msg)) rs.
Proof.
  revert env ts' env' rs. induction ts as [|t rest IH];
    intros env ts' env' rs; simpl.
  - intros E. inversion E. constructor.
  - destruct (gate t (world env)).
    + destruct (execute t env) as [[t1 env1] [r|e]] eqn:Hex; [|discriminate].
      destruct (for_each gate rest env1) as [[rest' env2] [rs'|e]] eqn:Hfor;
        [|discriminate].
      intros E. inversion E; subst. constructor; [|exact (IH _ _ _ _ Hfor)].
      destruct (execute_result_shape _ _ _ _ _ Hex)
        as [(Hs & He & m & Hm & Hne & _)|(Hs & Hm & msg & He & _)];
        [left|right]; eauto.
    + destruct (for_each gate rest env) as [[rest' env1] c] eqn:Hfor.
      intros E. inversion E; subst. exact (IH _ _ _ _ Hfor).
Qed.

(** X20: the summary of [demo.py] accounts for every result of
    [run_once]: the successes and the failures it counts add up to the
    number of results, and the detail it prints for a result is the
    completion message of a success and the error text of a failure, never
    [None]. *)
Theorem demo_summary_accounts (a : Agent) (env : Env) (a' : Agent)
    (env' : Env) (results : list Result) :
  run_once a env = (a', env', Returns results) ->
  (success_count results + failed_count results)%nat = List.length results /\
  Forall (fun r =>
            detail r <> None /\
            detail r = if String.eqb (r_status r) "success"
                       then r_message r else r_error r) results.
Proof.
  unfold run_once.
  destruct (for_each (fun t _ => never_ran t) (tasks a) env)
    as [[ts env1] c] eqn:Hfor.
  intros E. inversion E; subst. clear E.
  apply for_each_result_shapes in Hfor.
  unfold success_count, failed_count.
  induction Hfor as [|r rs Hr Hrs [IHc IHd]]; simpl; [auto|].
  destruct Hr as [(Hs & He & m & Hm & Hne)|(Hs & Hm & msg & He)].
  - rewrite Hs. simpl. split; [lia|]. constructor; [|exact IHd].
    unfold detail. rewrite Hs, Hm. simpl.
    destruct (String.eqb_spec m "") as [E|_]; [contradiction|].
    split; [discriminate|reflexivity].
  - rewrite Hs. simpl. split; [lia|]. constructor; [|exact IHd].
    unfold detail. rewrite Hs, Hm, He. simpl.
    split; [discriminate|reflexivity].
Qed.

Lemma for_each_fresh_report (ts : list Task) (env : Env) :
  Forall (fun t => returns_or_fails (action t) /\ enabled t = true /\
                   last_run t = None /\ run_count t = 0) ts ->
  exists ts' env' rs,
    for_each (fun t _ => never_ran t) ts env = (ts', env', Returns rs) /\
    Forall2 (fun r s =>
               s_name s = r_task r /\
               ((r_status r = "success" /\ s_status s = "completed" /\
                 s_run_count s = 1) \/
                (r_status r = "failed" /\ s_status s = "failed" /\
                 s_run_count s = 0 /\ s_last_run s = None)))
            rs (map snapshot ts').
Proof.
  intros Hall. revert env.
  induction Hall as [|t rest (Hact & He & Hl & Hc) Hrest IH]; intros env;
    simpl.
  - exists [], env, []. split; [reflexivity|constructor].
  - unfold never_ran at 1. rewrite He, Hl. simpl.
    assert (Hex : exists t' env1 r,
              execute t env = (t', env1, Returns r) /\
              s_name (snapshot t') = r_task r /\
              ((r_status r = "success" /\ s_status (snapshot t') = "completed"
                /\ s_run_count (snapshot t') = 1) \/
               (r_status r = "failed" /\ s_status (snapshot t') = "failed" /\
                s_run_count (snapshot t') = 0 /\
                s_last_run (snapshot t') = None))).
    { unfold execute. simpl.
      destruct (Hact (world env)) as [Hr|[msg Hf]]; rewrite ?Hr, ?Hf;
        eexists _, _, _; (split; [reflexivity|]); simpl;
        (split; [reflexivity|]); rewrite ?Hc, ?Hl; [left|right]; auto. }
    destruct Hex as (t' & env1 & r & Hex & Hname & Hcase). rewrite Hex.
    destruct (IH env1) as (rest' & env' & rs & Hfor & Hrel). rewrite Hfor.
    exists (t' :: rest'), env', (r :: rs). split; [reflexivity|].
    simpl. constructor; auto.
Qed.

(** X21: after [run_once] on records that are enabled and never ran
    (run count 0), the status report agrees with the results, entry by
    entry: a success shows as "completed" with run count 1, a failure as
    "failed" with run count 0 and no last run. *)
Theorem report_after_run_once (a : Agent) (env : Env) :
  Forall (fun t => returns_or_fails (action t) /\ enabled t = true /\
                   last_run t = None /\ run_count t = 0) (tasks a) ->
  exists a' env' rs,
    run_once a env = (a', env', Returns rs) /\
    Forall2 (fun r s =>
               s_name s = r_task r /\
               ((r_status r = "success" /\ s_status s = "completed" /\
                 s_run_count s = 1) \/
                (r_status r = "failed" /\ s_status s = "failed" /\
                 s_run_count s = 0 /\ s_last_run s = None)))
            rs (snd (get_task_status a')).
Proof.
  intros Hall. unfold run_once.
  destruct (for_each_fresh_report (tasks a) env Hall)
    as (ts' & env' & rs & Hfor & Hrel).
  rewrite Hfor. exists (set_tasks ts' a), env', rs.
  split; [reflexivity|exact Hrel].
Qed.

End Reporting.

(** * Further instances on the test world *)

(** Proves a [Forall] over a concrete registry, each element by [tac]. *)
Ltac each_task tac :=
  simpl; repeat (apply Forall_cons; [tac|]); apply Forall_nil.

Ltac returns_always := intros ?w; reflexivity.
Ltac returns_or_fails_left := intros ?w; left; reflexivity.
Ltac returns_or_fails_any :=
  intros ?w; first [left; reflexivity | right; eexists; reflexivity].

Lemma success_consumes_first_run_witness :
  (signal (action Demo.fresh_task (world Demo.env0)) = Returned /\
   interval Demo.fresh_task = 0 /\
   forall w, should_run (fst (fst (execute Demo.fresh_task Demo.env0))) w
             = false) /\
  (signal (action Demo.periodic_task (world Demo.env0)) = Returned /\
   interval Demo.periodic_task <> 0 /\ enabled Demo.periodic_task = true /\
   (should_run (fst (fst (execute Demo.periodic_task Demo.env0))) Demo.w1
    = true <-> (inject_Z 5 <= 200 - 100)%Q)).
Proof.
  assert (Hnz : interval Demo.periodic_task <> 0) by (simpl; lia).
  split.
  - split; [reflexivity|]. split; [reflexivity|].
    exact (proj1 (proj2 (@success_consumes_first_run Demo.host
                           Demo.fresh_task Demo.env0 eq_refl)) eq_refl).
  - split; [reflexivity|]. split; [exact Hnz|]. split; [reflexivity|].
    exact (proj2 (proj2 (@success_consumes_first_run Demo.host
                           Demo.periodic_task Demo.env0 eq_refl))
             Hnz eq_refl Demo.w1).
Defined.

Lemma execute_success_result_witness :
  signal (action Demo.fresh_task (world Demo.env0)) = Returned /\
  exists t' env' r,
    execute Demo.fresh_task Demo.env0 = (t', env', Returns r) /\
    r_status r = "success" /\
    r_message r = Some "Task completed successfully (run #1)" /\
    run_count t' = 1.
Proof.
  split; [reflexivity|].
  destruct (@execute_success_result Demo.host Demo.fresh_task Demo.env0
              eq_refl)
    as (t' & env' & r & Hex & _ & _ & Hs & _ & Hm & _ & Hc & _).
  exists t', env', r. repeat split; assumption.
Defined.

Lemma execute_interrupt_leaves_running_witness :
  signal (action Demo.interrupt_task (world Demo.env0))
  = Raises KeyboardInterrupt /\
  (forall msg, KeyboardInterrupt <> Exception msg) /\
  exists t' env',
    execute Demo.interrupt_task Demo.env0
    = (t', env', Propagates KeyboardInterrupt) /\
    status t' = "running" /\ run_count t' = 0.
Proof.
  assert (Hne : forall msg, KeyboardInterrupt <> Exception msg)
    by (intros msg; discriminate).
  split; [reflexivity|]. split; [exact Hne|].
  destruct (@execute_interrupt_leaves_running Demo.host Demo.interrupt_task
              Demo.env0 KeyboardInterrupt eq_refl Hne)
    as (t' & env' & Hex & Hs & Hc & _).
  exists t', env'. repeat split; assumption.
Defined.

Lemma should_run_monotone_witness :
  ((@time_time Demo.host Demo.w0 <= @time_time Demo.host Demo.w1)%Q /\
   should_run Demo.periodic_task Demo.w0 = true /\
   should_run Demo.periodic_task Demo.w1 = true) /\
  (enabled Demo.eager_task = true /\ interval Demo.eager_task < 0 /\
   last_run Demo.eager_task = Some 90%Q /\
   (90 <= @time_time Demo.host Demo.w0)%Q /\
   should_run Demo.eager_task Demo.w0 = true).
Proof.
  assert (Hle : (@time_time Demo.host Demo.w0
                 <= @time_time Demo.host Demo.w1)%Q)
    by (unfold Qle; simpl; lia).
  assert (Hneg : interval Demo.eager_task < 0) by (simpl; lia).
  assert (Hlr : (90 <= @time_time Demo.host Demo.w0)%Q)
    by (unfold Qle; simpl; lia).
  split.
  - split; [exact Hle|]. split; [reflexivity|].
    exact (proj1 (@should_run_monotone Demo.host Demo.periodic_task
                    Demo.w0 Demo.w1) Hle eq_refl).
  - split; [reflexivity|]. split; [exact Hneg|]. split; [reflexivity|].
    split; [exact Hlr|].
    exact (proj2 (@should_run_monotone Demo.host Demo.eager_task
                    Demo.w0 Demo.w0) 90%Q eq_refl Hneg eq_refl Hlr).
Defined.

Lemma add_then_remove_witness :
  ((forall t, In t (tasks Demo.workflow) -> name t <> "fourth") /\
   remove_task "fourth"
     (@add_task Demo.host "fourth" (Demo.appends "task4") 0 true
        Demo.workflow)
   = (Demo.workflow, true)) /\
  ((exists t, In t (tasks Demo.workflow) /\ name t = "second") /\
   exists before t after,
     tasks Demo.workflow = (before ++ t :: after)%list /\
     remove_task "second"
       (@add_task Demo.host "second" Demo.boom 7 false Demo.workflow)
     = (set_tasks (before ++ after
                   ++ [@new_task Demo.host "second" Demo.boom 7 false])
                  Demo.workflow, true)).
Proof.
  assert (Hnone : forall t, In t (tasks Demo.workflow) -> name t <> "fourth").
  { intros t [<-|[<-|[<-|[]]]]; discriminate. }
  assert (Hsome : exists t, In t (tasks Demo.workflow) /\ name t = "second").
  { exists (@new_task Demo.host "second" (Demo.appends "task2") 0 true).
    split; [right; left; reflexivity|reflexivity]. }
  split; (split; [assumption|]).
  - exact (proj1 (@add_then_remove Demo.host "fourth" (Demo.appends "task4")
                    0 true Demo.workflow) Hnone).
  - destruct (proj2 (@add_then_remove Demo.host "second" Demo.boom 7 false
                       Demo.workflow) Hsome)
      as (before & t & after & Hts & _ & _ & Hrm).
    exists before, t, after. split; assumption.
Defined.

Lemma remove_task_counts_witness :
  remove_task "second" Demo.workflow
  = (fst (remove_task "second" Demo.workflow), true) /\
  "first" <> "second" /\
  count_name "second" (tasks Demo.workflow) = 1%nat /\
  List.length (tasks (fst (remove_task "second" Demo.workflow))) = 2%nat /\
  count_name "first" (tasks (fst (remove_task "second" Demo.workflow)))
  = 1%nat /\
  remove_task "second" (fst (remove_task "second" Demo.workflow))
  = (fst (remove_task "second" Demo.workflow), false).
Proof.
  assert (Hrm : remove_task "second" Demo.workflow
                = (fst (remove_task "second" Demo.workflow), true))
    by reflexivity.
  assert (Hne : "first" <> "second") by discriminate.
  assert (Hone : count_name "second" (tasks Demo.workflow) = 1%nat)
    by reflexivity.
  destruct (@remove_task_counts Demo.host "second" Demo.workflow _ Hrm)
    as (Hlen & _ & Hother & Hagain).
  split; [exact Hrm|]. split; [exact Hne|]. split; [exact Hone|].
  split; [simpl in Hlen |- *; lia|].
  split; [rewrite (Hother "first" Hne); reflexivity|exact (Hagain Hone)].
Defined.

Lemma sweeps_keep_registry_witness :
  exists a' env' x,
    run 2 (Some 1) Demo.workflow Demo.env0 = Some (a', env', x) /\
    agent_name a' = "WorkflowAgent" /\
    Forall2 kept (tasks Demo.workflow) (tasks a').
Proof.
  destruct (run 2 (Some 1) Demo.workflow Demo.env0)
    as [[[a' env'] x]|] eqn:Hrun.
  - exists a', env', x. split; [reflexivity|].
    exact (proj2 (@sweeps_keep_registry Demo.host Demo.workflow Demo.env0)
             2%nat (Some 1) a' env' x Hrun).
  - vm_compute in Hrun. discriminate.
Defined.

Lemma mixed_returns_or_fails :
  Forall (fun t => @returns_or_fails Demo.host (action t)) (tasks Demo.mixed).
Proof.
  each_task returns_or_fails_any.
Qed.

Lemma run_once_retries_failures_witness :
  Forall (fun t => returns_or_fails (action t)) (tasks Demo.mixed) /\
  exists a1 env1 rs1,
    run_once Demo.mixed Demo.env0 = (a1, env1, Returns rs1) /\
    exists a2 env3 rs2,
      run_once a1 env1 = (a2, env3, Returns rs2) /\
      map r_task rs2 = map r_task (filter failed rs1).
Proof.
  split; [exact mixed_returns_or_fails|].
  destruct (@run_once_retries_failures Demo.host Demo.mixed Demo.env0
              mixed_returns_or_fails)
    as (a1 & env1 & rs1 & Hrun & Hnext).
  exists a1, env1, rs1. split; [exact Hrun|].
  destruct (Hnext env1) as (a2 & env3 & rs2 & Hrun2 & Hnames & _).
  exists a2, env3, rs2. split; assumption.
Defined.

Lemma workflow_always_returns :
  Forall (fun t => forall w, signal (@action Demo.host t w) = Returned)
         (tasks Demo.workflow).
Proof. each_task returns_always. Qed.

Lemma run_once_settles_witness :
  Forall (fun t => forall w, signal (action t w) = Returned)
         (tasks Demo.workflow) /\
  exists a1 env1 rs,
    run_once Demo.workflow Demo.env0 = (a1, env1, Returns rs) /\
    run_once a1 env1 = (a1, env1, Returns []).
Proof.
  split; [exact workflow_always_returns|].
  destruct (@run_once_settles Demo.host Demo.workflow Demo.env0
              workflow_always_returns)
    as (a1 & env1 & rs & Hrun & _ & Hnext).
  exists a1, env1, rs. split; [exact Hrun|exact (Hnext env1)].
Defined.

Lemma run_once_interrupted_witness :
  exists before' env_b,
    run_once Demo.interrupted_agent Demo.env0
    = (set_tasks (before'
                  ++ set_status "running" Demo.interrupt_task
                  :: [@new_task Demo.host "third" (Demo.appends "task3")
                        0 true])
                 Demo.interrupted_agent,
       after_call (Invoked "ctrl-c")
                  (action Demo.interrupt_task (world env_b)) env_b,
       Propagates KeyboardInterrupt) /\
    journal env_b = [Invoked "first"] /\
    Demo.appended (world env_b) = ["task1"] /\
    map status before' = ["completed"] /\ map run_count before' = [1].
Proof.
  assert (Hbefore : Forall (fun u => @returns_or_fails Demo.host (action u))
                      [@new_task Demo.host "first" (Demo.appends "task1")
                         0 true])
    by (each_task returns_or_fails_left).
  assert (Hne : forall msg, KeyboardInterrupt <> Exception msg)
    by (intros msg; discriminate).
  destruct (@run_once_interrupted Demo.host Demo.interrupted_agent Demo.env0
              [@new_task Demo.host "first" (Demo.appends "task1") 0 true]
              [@new_task Demo.host "third" (Demo.appends "task3") 0 true]
              Demo.interrupt_task KeyboardInterrupt
              eq_refl Hbefore eq_refl (fun _ => eq_refl) Hne)
    as (before' & env_b & rs_b & Hfor & Hrun & Hw & Hrecs & _ & Hj).
  exists before', env_b. split; [exact Hrun|]. split; [exact Hj|].
  split; [rewrite Hw; reflexivity|].
  vm_compute in Hfor. inversion Hfor; subst. split; reflexivity.
Defined.

Lemma run_negative_limit_witness :
  -1 < 0 /\
  run 1 (Some (-1)) Demo.workflow Demo.env0
  = Some (Demo.workflow, stop Demo.env0, LimitReached).
Proof.
  assert (Hneg : -1 < 0) by lia.
  split; [exact Hneg|].
  exact (@run_negative_limit Demo.host (-1) 0%nat Demo.workflow Demo.env0
           Hneg).
Defined.

Lemma demo_quiet_sleep : @quiet_sleep Demo.host.
Proof. intros s w. split; reflexivity. Qed.

Lemma workflow_quiet : Forall (@quiet Demo.host) (tasks Demo.workflow).
Proof.
  each_task ltac:(split; [apply appends_returns|apply appends_never_stops]).
Qed.

Lemma run_counts_iterations_witness :
  0 < 3 /\ @quiet_sleep Demo.host /\ Forall quiet (tasks Demo.workflow) /\
  exists a' env' evs,
    run 4 (Some 3) Demo.workflow Demo.env0 = Some (a', env', LimitReached) /\
    journal env' = (journal Demo.env0 ++ evs)%list /\
    List.length (filter is_sweep evs) = 3%nat /\
    List.length (filter is_sleep evs) = 3%nat.
Proof.
  assert (Hpos : 0 < 3) by lia.
  split; [exact Hpos|]. split; [exact demo_quiet_sleep|].
  split; [exact workflow_quiet|].
  destruct (@run_counts_iterations Demo.host 3 0%nat Demo.workflow Demo.env0
              Hpos demo_quiet_sleep workflow_quiet)
    as (a' & env' & evs & Hrun & Hj & Hsw & Hsl & _).
  exists a', env', evs. repeat split; assumption.
Defined.

Lemma run_interrupted_in_sleep_witness :
  limit_hit None 0 = false /\
  (forall w, signal (@time_sleep Demo.nervous_host 1 w)
             = Raises KeyboardInterrupt) /\
  exists a' env',
    @run Demo.nervous_host 1 None Demo.nervous_agent Demo.nervous_env0
    = Some (a', env', Raised_ KeyboardInterrupt) /\
    running env' = false /\
    run_completion (Raised_ KeyboardInterrupt) = Returns tt.
Proof.
  assert (Hacts : Forall (fun t => @returns_or_fails Demo.nervous_host
                                     (action t))
                         (tasks Demo.nervous_agent))
    by (each_task returns_or_fails_left).
  split; [reflexivity|]. split; [intros w; reflexivity|].
  destruct (@run_interrupted_in_sleep Demo.nervous_host 0%nat None
              Demo.nervous_agent Demo.nervous_env0 KeyboardInterrupt
              eq_refl Hacts (fun _ => eq_refl))
    as (a' & env' & evs & Hrun & Hr & _ & _ & _ & Hc).
  exists a', env'. repeat split; assumption.
Defined.


Lemma workflow_one_shots :
  Forall (fun t => interval t = 0 /\
                   (forall w, signal (@action Demo.host t w) = Returned) /\
                   never_stops (action t)) (tasks Demo.workflow).
Proof.
  each_task ltac:(split; [reflexivity|split; intros w; reflexivity]).
Qed.

Lemma one_shots_run_once_per_run_witness :
  0 < 3 /\ @quiet_sleep Demo.host /\
  exists a' env',
    run 4 (Some 3) Demo.workflow Demo.env0 = Some (a', env', LimitReached) /\
    journal env'
    = [SweepBegun; Invoked "first"; Invoked "second"; Invoked "third"; Slept;
       SweepBegun; Slept; SweepBegun; Slept].
Proof.
  assert (Hpos : 0 < 3) by lia.
  split; [exact Hpos|]. split; [exact demo_quiet_sleep|].
  destruct (@one_shots_run_once_per_run Demo.host 3 0%nat Demo.workflow
              Demo.env0 Hpos demo_quiet_sleep workflow_one_shots)
    as (a' & env' & Hrun & Hj & _).
  exists a', env'. split; [exact Hrun|exact Hj].
Defined.

Lemma agent_init_config_file_witness :
  (Demo.files "missing.json" = FileNotFoundError /\
   @agent_init Demo.host Demo.logging "Demo" (Some "missing.json") Demo.files
   = Propagates (Exception "'Agent' object has no attribute 'logger'")) /\
  ((exists msg, Demo.files "broken.json" = JSONDecodeError msg) /\
   @agent_init Demo.host Demo.logging "Demo" (Some "broken.json") Demo.files
   = Propagates (Exception "'Agent' object has no attribute 'logger'")) /\
  (Demo.files "list.json" = ReadOk (JArray [JInt 1; JInt 2]) /\
   exists msg,
     @agent_init Demo.host Demo.logging "Demo" (Some "list.json") Demo.files
     = Propagates (Exception msg)) /\
  (@logging_attr Demo.logging "INFO" = Some 20 /\
   exists self,
     @agent_init Demo.host Demo.logging "Demo" None Demo.files = Returns self /\
     attr_tasks self = Some [] /\
     _load_config self FileNotFoundError = Returns (JObject [])).
Proof.
  assert (Hm : "missing.json" <> "") by discriminate.
  assert (Hb : "broken.json" <> "") by discriminate.
  assert (Hl : "list.json" <> "") by discriminate.
  assert (Hbroken : exists msg, Demo.files "broken.json" = JSONDecodeError msg)
    by (exists "Expecting value"; reflexivity).
  assert (Hlist : forall fields, JArray [JInt 1; JInt 2] <> JObject fields)
    by (intros fields; discriminate).
  split; [|split; [|split]].
  - split; [reflexivity|].
    exact (proj1 (@agent_init_config_file Demo.host Demo.logging "Demo"
                    (Some "missing.json") Demo.files)
             "missing.json" eq_refl Hm (or_introl eq_refl)).
  - split; [exact Hbroken|].
    exact (proj1 (@agent_init_config_file Demo.host Demo.logging "Demo"
                    (Some "broken.json") Demo.files)
             "broken.json" eq_refl Hb (or_intror Hbroken)).
  - split; [reflexivity|].
    exact (proj1 (proj2 (@agent_init_config_file Demo.host Demo.logging "Demo"
                           (Some "list.json") Demo.files))
             "list.json" _ eq_refl Hl eq_refl Hlist).
  - split; [reflexivity|].
    pose proof (@agent_init_config_file Demo.host Demo.logging "Demo" None
                  Demo.files) as P.
    destruct P as (_ & _ & Hself & Hnone).
    specialize (Hnone 20 (or_introl eq_refl) eq_refl eq_refl).
    eexists. split; [exact Hnone|].
    destruct (Hself _ Hnone) as (_ & Ht & _ & _ & Hload & _).
    split; [exact Ht|exact Hload].
Defined.

Lemma demo_summary_accounts_witness :
  exists a' env' results,
    run_once Demo.mixed Demo.env0 = (a', env', Returns results) /\
    (success_count results + failed_count results)%nat
    = List.length results.
Proof.
  destruct (run_once Demo.mixed Demo.env0) as [[a' env'] [results|e]] eqn:Hrun.
  - exists a', env', results. split; [reflexivity|].
    exact (proj1 (@demo_summary_accounts Demo.host Demo.mixed Demo.env0
                    a' env' results Hrun)).
  - vm_compute in Hrun. discriminate.
Defined.

Lemma report_after_run_once_witness :
  Forall (fun t => returns_or_fails (action t) /\ enabled t = true /\
                   last_run t = None /\ run_count t = 0)
         (tasks Demo.mixed) /\
  exists a' env' rs,
    run_once Demo.mixed Demo.env0 = (a', env', Returns rs) /\
    List.length rs = List.length (snd (get_task_status a')).
Proof.
  assert (Hfresh : Forall (fun t => @returns_or_fails Demo.host (action t) /\
                                    enabled t = true /\
                                    last_run t = None /\ run_count t = 0)
                          (tasks Demo.mixed)).
  { each_task ltac:(split; [returns_or_fails_any|repeat split; reflexivity]). }
  split; [exact Hfresh|].
  destruct (@report_after_run_once Demo.host Demo.mixed Demo.env0 Hfresh)
    as (a' & env' & rs & Hrun & Hrel).
  exists a', env', rs. split; [exact Hrun|].
  exact (Forall2_length Hrel).
Defined.

Lemma executions_invariants_witness :
  last_run Demo.done_task <> None /\
  never_ran Demo.done_task = false /\
  last_run (fst (executions [Demo.env0; Demo.env0] Demo.done_task)) <> None /\
  never_ran (fst (executions [Demo.env0; Demo.env0] Demo.done_task)) = false.
Proof.
  assert (Hl : last_run Demo.done_task <> None) by discriminate.
  assert (Hn : never_ran Demo.done_task = false) by reflexivity.
  pose proof (@executions_invariants Demo.host [Demo.env0; Demo.env0]
                Demo.done_task) as P.
  destruct P as (_ & _ & _ & _ & _ & Hlast & Hgate).
  split; [exact Hl|]. split; [exact Hn|].
  split; [exact (Hlast Hl)|exact (Hgate Hn)].
Defined.
